(** * nezoba: the board firmware's input-translation engine

    A shallow embedding of [src/board]: the key enumeration ([keys.h]),
    the remap tables ([remap00.h] to [remap08.h], [remap10.h]),
    the MCP23017 pin helpers ([mcp.h]),
    the globals ([globals.h]), the [HANDLE_KEY] macro ([key_handler.h]),
    the start-up code ([setup.h]) and one iteration of the control loop
    ([main_loop.h]); and of the expander stub and the pin-driving loop of
    the test driver ([test/board]).

    Conventions.
    - C integers are [Z].  [byte] / [uint8_t] values are reduced modulo
      256, [signed char] negation wraps into [-128, 127], [unsigned long]
      subtraction wraps modulo 2^32 (the board is an AVR).
    - [dpad_x], [dpad_y] are C [int]s; they start at 0 in every iteration
      and are clamped inside every [HANDLE_KEY] expansion that touches
      them, so they stay far from the [int] limits and are kept unbounded.
    - Arrays are lists read with [nth]; button numbers are [nat].
    - [millis()] is read at several places of one iteration; every call
      site gets its own reading.
    - The calls made on [NSGamepad] are collected in order. *)

From Stdlib Require Import ZArith List Bool Lia QArith Sorted.
Import ListNotations.
Open Scope Z_scope.

(** ** keys.h *)

Definition N_BUTTONS : nat := 15.
Definition N_KEYS : nat := 42.
Definition N_DIRECTIONS : nat := 9.

Definition K_NOOP : Z := 0.
Definition K_DP_UP : Z := 1.
Definition K_DP_UP_RIGHT : Z := 2.
Definition K_DP_RIGHT : Z := 3.
Definition K_DP_DOWN_RIGHT : Z := 4.
Definition K_DP_DOWN : Z := 5.
Definition K_DP_DOWN_LEFT : Z := 6.
Definition K_DP_LEFT : Z := 7.
Definition K_DP_UP_LEFT : Z := 8.
Definition K_DP_CENTER : Z := 9.
Definition K_A : Z := 10.
Definition K_B : Z := 11.
Definition K_X : Z := 12.
Definition K_Y : Z := 13.
Definition K_L : Z := 14.
Definition K_R : Z := 15.
Definition K_ZL : Z := 16.
Definition K_ZR : Z := 17.
Definition K_HOME : Z := 18.
Definition K_PLUS : Z := 19.
Definition K_MINUS : Z := 20.
Definition K_LS_PRESS : Z := 21.
Definition K_RS_PRESS : Z := 22.
Definition K_CAPTURE : Z := 23.
Definition K_LS_UP : Z := 24.
Definition K_LS_CENTER : Z := 32.
Definition K_RS_UP : Z := 33.
Definition K_RS_CENTER : Z := 41.

Definition IS_NOOP (K : Z) : bool := K =? K_NOOP.
Definition IS_BUTTON (K : Z) : bool := (K_A <=? K) && (K <=? K_CAPTURE).
Definition IS_DP (K : Z) : bool := (K_DP_UP <=? K) && (K <=? K_DP_CENTER).
Definition IS_LS (K : Z) : bool := (K_LS_UP <=? K) && (K <=? K_LS_CENTER).
Definition IS_RS (K : Z) : bool := (K_RS_UP <=? K) && (K <=? K_RS_CENTER).

Definition N_KEYS_PER_BUTTON : nat := 3.
Definition N_REMAPPINGS : Z := 16.

(** The three arrays [KEY1], [KEY2], [KEY3], filled once by [setup]. *)
Record keymap : Type := mkKeymap {
  KEY1 : list Z;
  KEY2 : list Z;
  KEY3 : list Z
}.

(** *** Remap tables shipped with the firmware

    One row of [MAPPINGS] holds [N_KEYS_PER_BUTTON * N_BUTTONS] entries,
    three per button. *)

Definition remap00 : list Z :=
  [ K_DP_LEFT; K_NOOP; K_NOOP;   K_DP_DOWN; K_NOOP; K_NOOP;
    K_DP_RIGHT; K_NOOP; K_NOOP;  K_DP_UP; K_NOOP; K_NOOP;
    K_Y; K_NOOP; K_NOOP;         K_B; K_NOOP; K_NOOP;
    K_R; K_NOOP; K_NOOP;         K_ZL; K_NOOP; K_NOOP;
    K_L; K_NOOP; K_NOOP;         K_X; K_NOOP; K_NOOP;
    K_A; K_NOOP; K_NOOP;         K_ZR; K_NOOP; K_NOOP;
    K_MINUS; K_NOOP; K_NOOP;     K_PLUS; K_NOOP; K_NOOP;
    K_HOME; K_NOOP; K_NOOP ].

Definition remap03 : list Z :=
  [ K_DP_LEFT; K_NOOP; K_NOOP;   K_DP_DOWN; K_NOOP; K_NOOP;
    K_DP_RIGHT; K_NOOP; K_NOOP;  K_DP_UP; K_NOOP; K_NOOP;
    K_Y; K_NOOP; K_NOOP;         K_B; K_NOOP; K_NOOP;
    K_L; K_NOOP; K_NOOP;         K_L; K_R; K_NOOP;
    - K_X; K_NOOP; K_NOOP;       - K_A; K_NOOP; K_NOOP;
    K_X; K_NOOP; K_NOOP;         K_A; K_NOOP; K_NOOP;
    K_MINUS; K_NOOP; K_NOOP;     K_PLUS; K_NOOP; K_NOOP;
    K_HOME; K_NOOP; K_NOOP ].

Definition remap10 : list Z :=
  [ K_DP_LEFT; K_NOOP; K_NOOP;   K_DP_DOWN; K_NOOP; K_NOOP;
    K_DP_RIGHT; K_NOOP; K_NOOP;  K_DP_UP; K_NOOP; K_NOOP;
    K_B; K_NOOP; K_NOOP;         K_Y; K_NOOP; K_NOOP;
    K_ZL; K_NOOP; K_NOOP;        K_L; K_DP_UP; K_NOOP;
    K_A; K_DP_UP; K_NOOP;        K_X; K_NOOP; K_NOOP;
    K_A; K_NOOP; K_NOOP;         K_R; K_NOOP; K_NOOP;
    K_MINUS; K_NOOP; K_NOOP;     K_PLUS; K_NOOP; K_NOOP;
    K_HOME; K_NOOP; K_NOOP ].

(** ** mcp.h *)

Definition MCP_GPIOA : Z := 0x12.
Definition MCP_GPIOB : Z := 0x13.

Definition IS_GPIOA_PIN (PIN : Z) : bool := (0 <=? PIN) && (PIN <? 8).
Definition IS_GPIOB_PIN (PIN : Z) : bool := (8 <=? PIN) && (PIN <? 16).

Definition PIN2REGISTER (PIN : Z) : Z :=
  if IS_GPIOA_PIN PIN then MCP_GPIOA else MCP_GPIOB.

Definition PIN2BITMASK (PIN : Z) : Z :=
  if IS_GPIOA_PIN PIN then Z.shiftl 0x01 PIN else Z.shiftl 0x01 (PIN - 8).

(** ** Machine integer conversions *)

(** Conversion to [byte] (an 8-bit unsigned integer on the board). *)
Definition to_byte (z : Z) : Z := z mod 256.

(** Conversion to [signed char]. *)
Definition to_schar (z : Z) : Z := (z + 128) mod 256 - 128.

(** Conversion to [unsigned long] (32 bits on the board). *)
Definition to_ulong (z : Z) : Z := z mod 2 ^ 32.

(** ** globals.h *)

(** [TURBO_PERIOD] is the floating constant [(1.6*1000.0/120.0)].  It is
    only ever compared with an [unsigned long] converted to [double];
    such a conversion is exact, and the constant (13.33...) lies strictly
    between the integers 13 and 14 both as a rational and as a double, so
    the comparison with the rational value decides exactly as the one in
    the firmware does. *)
Definition TURBO_PERIOD : Q := (16 # 10) * 1000 / 120.

Definition BUTTON2MCP : list Z :=
  [11; 12; 13; 7; 0; 1; 2; 8; 3; 4; 5; 6; 9; 10; 15].

Definition DEBOUNCING : Z := 5.

Definition P_CFG_1 : Z := 1.
Definition P_CFG_2 : Z := 4.
Definition P_CFG_3 : Z := 3.
Definition P_CFG_4 : Z := 14.

Record globals : Type := mkGlobals {
  TT : bool;
  last_toggle_time : Z;
  GPIOA_state : Z;
  GPIOA_previous : Z;
  GPIOB_state : Z;
  GPIOB_previous : Z;
  GPIOA_last_debounce_time : Z;
  GPIOB_last_debounce_time : Z
}.

(** The initialisers of [globals.h]. *)
Definition initial_globals : globals :=
  {| TT := false;
     last_toggle_time := 0;
     GPIOA_state := 0xff;
     GPIOA_previous := 0xff;
     GPIOB_state := 0xff;
     GPIOB_previous := 0xff;
     GPIOA_last_debounce_time := 0;
     GPIOB_last_debounce_time := 0 |}.

(** The constants of the gamepad library that [KEYS2PAD] refers to, kept
    symbolic; [PAD_0] is the literal [0] of the first entry and of the
    entries past the initialiser list. *)
Inductive pad_value : Type :=
  | PAD_0
  | NSGAMEPAD_DPAD_UP
  | NSGAMEPAD_DPAD_UP_RIGHT
  | NSGAMEPAD_DPAD_RIGHT
  | NSGAMEPAD_DPAD_DOWN_RIGHT
  | NSGAMEPAD_DPAD_DOWN
  | NSGAMEPAD_DPAD_DOWN_LEFT
  | NSGAMEPAD_DPAD_LEFT
  | NSGAMEPAD_DPAD_UP_LEFT
  | NSGAMEPAD_DPAD_CENTERED
  | NSButton_A
  | NSButton_B
  | NSButton_X
  | NSButton_Y
  | NSButton_LeftTrigger
  | NSButton_RightTrigger
  | NSButton_LeftThrottle
  | NSButton_RightThrottle
  | NSButton_Home
  | NSButton_Plus
  | NSButton_Minus
  | NSButton_LeftStick
  | NSButton_RightStick
  | NSButton_Capture.

Definition KEYS2PAD_table : list pad_value :=
  [ PAD_0;
    NSGAMEPAD_DPAD_UP;
    NSGAMEPAD_DPAD_UP_RIGHT;
    NSGAMEPAD_DPAD_RIGHT;
    NSGAMEPAD_DPAD_DOWN_RIGHT;
    NSGAMEPAD_DPAD_DOWN;
    NSGAMEPAD_DPAD_DOWN_LEFT;
    NSGAMEPAD_DPAD_LEFT;
    NSGAMEPAD_DPAD_UP_LEFT;
    NSGAMEPAD_DPAD_CENTERED;
    NSButton_A;
    NSButton_B;
    NSButton_X;
    NSButton_Y;
    NSButton_LeftTrigger;
    NSButton_RightTrigger;
    NSButton_LeftThrottle;
    NSButton_RightThrottle;
    NSButton_Home;
    NSButton_Plus;
    NSButton_Minus;
    NSButton_LeftStick;
    NSButton_RightStick;
    NSButton_Capture ].

(** [KEYS2PAD[k]] for a key number [k] inside the array. *)
Definition KEYS2PAD (k : Z) : pad_value := nth (Z.to_nat k) KEYS2PAD_table PAD_0.

(** ** Calls on the gamepad object *)

Inductive gp_call : Type :=
  | ReleaseAll
  | Press (b : pad_value)
  | DPad (d : pad_value)
  | Loop.

(** ** key_handler.h *)

(** The [switch (_k)] of [HANDLE_KEY]; a value matching no [case] falls
    through the switch. *)
Definition dp_switch (_k : Z) (dpad_x dpad_y : Z) : Z * Z :=
  if _k =? K_DP_UP then (dpad_x, dpad_y + 1)
  else if _k =? K_DP_DOWN then (dpad_x, dpad_y - 1)
  else if _k =? K_DP_LEFT then (dpad_x - 1, dpad_y)
  else if _k =? K_DP_RIGHT then (dpad_x + 1, dpad_y)
  else if _k =? K_DP_UP_RIGHT then (dpad_x + 1, dpad_y + 1)
  else if _k =? K_DP_DOWN_RIGHT then (dpad_x + 1, dpad_y - 1)
  else if _k =? K_DP_UP_LEFT then (dpad_x - 1, dpad_y + 1)
  else if _k =? K_DP_DOWN_LEFT then (dpad_x - 1, dpad_y - 1)
  else (dpad_x, dpad_y).

(** [if (d > 1) d = 1; else if (d < -1) d = -1;] *)
Definition clamp1 (d : Z) : Z :=
  if d >? 1 then 1 else if d <? -1 then -1 else d.

(** The body of [HANDLE_KEY] once [_k] has been read: [k0] is the array
    entry, [tt] the turbo flag [TT], [dpad] the accumulator
    [(dpad_x, dpad_y)].  The result is the gamepad calls made and the
    accumulator left. *)
Definition HANDLE_KEY_body (k0 : Z) (tt : bool) (dpad : Z * Z)
  : list gp_call * (Z * Z) :=
  let '(_k, turboed) :=
    if k0 <? 0 then (to_schar (- k0), true) else (k0, false) in
  if (negb turboed || tt) && IS_BUTTON _k then
    ([Press (KEYS2PAD _k)], dpad)
  else if IS_DP _k then
    let '(x, y) := dp_switch _k (fst dpad) (snd dpad) in
    ([], (clamp1 x, clamp1 y))
  else
    ([], dpad).

(** [HANDLE_KEY(KEYID, B)]: [signed char _k = KEYID[(B)];] and the body. *)
Definition HANDLE_KEY (KEYID : list Z) (B : nat) (tt : bool) (dpad : Z * Z)
  : list gp_call * (Z * Z) :=
  HANDLE_KEY_body (nth B KEYID 0) tt dpad.

(** ** setup.h *)

Definition LOW : Z := 0.
Definition HIGH : Z := 1.

(** The [while(1)] loop that reads the register of [P_CFG_4] until two
    successive readings agree.  [reads] holds the values that successive
    [Wire.read()] calls return; the loop has no exit of its own, so the
    result is [None] when the readings run out before two of them agree. *)
Fixpoint cfg4_loop (reads : list Z) (__cfg4 : Z) : option Z :=
  match reads with
  | [] => None
  | r :: rest =>
      let _cfg4 := to_byte r in
      if _cfg4 =? __cfg4 then Some _cfg4 else cfg4_loop rest _cfg4
  end.

(** Conversion to [unsigned int] (16 bits on the board). *)
Definition to_uint (z : Z) : Z := z mod 2 ^ 16.

(** [CFG = (cfg1 << 3) + (cfg2 << 2) + (cfg3 << 1) + cfg4;] *)
Definition compute_CFG (cfg1 cfg2 cfg3 cfg4 : bool) : Z :=
  to_uint (Z.shiftl (Z.b2z cfg1) 3 + Z.shiftl (Z.b2z cfg2) 2
           + Z.shiftl (Z.b2z cfg3) 1 + Z.b2z cfg4).

(** The loop copying row [CFG_MAPPING] into [KEY1], [KEY2], [KEY3]. *)
Definition load_keys (CFG_MAPPING : list Z) : keymap :=
  {| KEY1 := map (fun b => nth (3 * b) CFG_MAPPING 0) (seq 0 N_BUTTONS);
     KEY2 := map (fun b => nth (3 * b + 1) CFG_MAPPING 0) (seq 0 N_BUTTONS);
     KEY3 := map (fun b => nth (3 * b + 2) CFG_MAPPING 0) (seq 0 N_BUTTONS) |}.

(** [setup]: [pin1], [pin2], [pin3] are the values [digitalRead] returns
    for [P_CFG_1], [P_CFG_2], [P_CFG_3]; the result is [CFG] and the
    loaded key arrays. *)
Definition setup (MAPPINGS : list (list Z)) (pin1 pin2 pin3 : Z)
    (reads : list Z) : option (Z * keymap) :=
  let cfg1 := pin1 =? LOW in
  let cfg2 := pin2 =? LOW in
  let cfg3 := pin3 =? LOW in
  match cfg4_loop reads 0x00 with
  | None => None
  | Some _cfg4 =>
      let cfg4 := Z.land _cfg4 (PIN2BITMASK P_CFG_4) =? 0 in
      let CFG := compute_CFG cfg1 cfg2 cfg3 cfg4 in
      let CFG_MAPPING := nth (Z.to_nat CFG) MAPPINGS [] in
      Some (CFG, load_keys CFG_MAPPING)
  end.

(** ** main_loop.h *)

(** What one iteration obtains from outside: the two values [Wire.read()]
    returns and the value of [millis()] at each of its call sites, in
    program order (the test and the assignment of the turbo toggle, the
    two timer resets and the two tests of the debouncing).  [millis()]
    returns an [unsigned long]; a reading at a call site that is not
    reached is not used. *)
Record tick_input : Type := mkTick {
  wire_gpioa : Z;
  wire_gpiob : Z;
  millis_turbo_test : Z;
  millis_turbo_set : Z;
  millis_a_reset : Z;
  millis_b_reset : Z;
  millis_a_test : Z;
  millis_b_test : Z
}.

(** [(unsigned long) (millis() - last_toggle_time) >= TURBO_PERIOD] *)
Definition turbo_due (now last : Z) : bool :=
  Qle_bool TURBO_PERIOD (inject_Z (to_ulong (now - last))).

(** [(unsigned long)(millis() - GPIOx_last_debounce_time) > DEBOUNCING] *)
Definition debounce_due (now last : Z) : bool :=
  to_ulong (now - last) >? DEBOUNCING.

(** [bool pressed = ((_gpio & PIN2BITMASK(p)) == 0x00);] for button [b]. *)
Definition button_pressed (gpioa gpiob : Z) (b : nat) : bool :=
  let p := nth b BUTTON2MCP 0 in
  let _gpio := if IS_GPIOA_PIN p then gpioa else gpiob in
  Z.land _gpio (PIN2BITMASK p) =? 0x00.

(** The body of [for (int b = 0; b < N_BUTTONS; b++)]: the calls made so
    far and the accumulator, before and after button [b]. *)
Definition button_body (K : keymap) (tt : bool) (gpioa gpiob : Z)
    (st : list gp_call * (Z * Z)) (b : nat) : list gp_call * (Z * Z) :=
  if button_pressed gpioa gpiob b then
    let '(c1, d1) := HANDLE_KEY (KEY1 K) b tt (snd st) in
    let '(c2, d2) := HANDLE_KEY (KEY2 K) b tt d1 in
    let '(c3, d3) := HANDLE_KEY (KEY3 K) b tt d2 in
    (fst st ++ c1 ++ c2 ++ c3, d3)
  else st.

Definition button_loop (K : keymap) (tt : bool) (gpioa gpiob : Z)
    (st : list gp_call * (Z * Z)) : list gp_call * (Z * Z) :=
  fold_left (button_body K tt gpioa gpiob) (seq 0 N_BUTTONS) st.

(** The [if ... else if ...] chain of the SOCD cleaning: the key whose
    [KEYS2PAD] entry is passed to [NSGamepad.dPad], or [None] when no
    branch is taken (the chain has no final [else]). *)
Definition socd_select (dpad_x dpad_y : Z) : option Z :=
  if (dpad_x =? 0) && (dpad_y =? 0) then Some K_DP_CENTER
  else if (dpad_x =? 0) && (dpad_y =? 1) then Some K_DP_UP
  else if (dpad_x =? 1) && (dpad_y =? 1) then Some K_DP_UP_RIGHT
  else if (dpad_x =? 1) && (dpad_y =? 0) then Some K_DP_RIGHT
  else if (dpad_x =? 1) && (dpad_y =? -1) then Some K_DP_DOWN_RIGHT
  else if (dpad_x =? 0) && (dpad_y =? -1) then Some K_DP_DOWN
  else if (dpad_x =? -1) && (dpad_y =? -1) then Some K_DP_DOWN_LEFT
  else if (dpad_x =? -1) && (dpad_y =? 0) then Some K_DP_LEFT
  else if (dpad_x =? -1) && (dpad_y =? 1) then Some K_DP_UP_LEFT
  else None.

Definition socd_dispatch (dpad : Z * Z) : list gp_call :=
  match socd_select (fst dpad) (snd dpad) with
  | Some k => [DPad (KEYS2PAD k)]
  | None => []
  end.

(** Lines 8 to 46 of [main_loop.h]: the turbo toggle, the two register
    reads and the debouncing, on the globals. *)
Definition turbo_and_debounce (g : globals) (i : tick_input) : globals :=
  (* turbo toggle *)
  let '(last_toggle_time1, TT1) :=
    if turbo_due (millis_turbo_test i) (last_toggle_time g)
    then (millis_turbo_set i, negb (TT g))
    else (last_toggle_time g, TT g) in
  (* read all buttons *)
  let reading_gpioa := to_byte (wire_gpioa i) in
  let GPIOA_state1 := reading_gpioa in
  let reading_gpiob := to_byte (wire_gpiob i) in
  let GPIOB_state1 := reading_gpiob in
  (* debouncing *)
  let GPIOA_last_debounce_time1 :=
    if negb (reading_gpioa =? GPIOA_previous g)
    then millis_a_reset i else GPIOA_last_debounce_time g in
  let GPIOB_last_debounce_time1 :=
    if negb (reading_gpiob =? GPIOB_previous g)
    then millis_b_reset i else GPIOB_last_debounce_time g in
  let GPIOA_state2 :=
    if debounce_due (millis_a_test i) GPIOA_last_debounce_time1
    then (if negb (reading_gpioa =? GPIOA_state1)
          then reading_gpioa else GPIOA_state1)
    else GPIOA_state1 in
  let GPIOB_state2 :=
    if debounce_due (millis_b_test i) GPIOB_last_debounce_time1
    then (if negb (reading_gpiob =? GPIOB_state1)
          then reading_gpiob else GPIOB_state1)
    else GPIOB_state1 in
  let GPIOA_previous1 := reading_gpioa in
  let GPIOB_previous1 := reading_gpiob in
  {| TT := TT1;
     last_toggle_time := last_toggle_time1;
     GPIOA_state := GPIOA_state2;
     GPIOA_previous := GPIOA_previous1;
     GPIOB_state := GPIOB_state2;
     GPIOB_previous := GPIOB_previous1;
     GPIOA_last_debounce_time := GPIOA_last_debounce_time1;
     GPIOB_last_debounce_time := GPIOB_last_debounce_time1 |}.

(** The accumulator [int dpad_x = 0, dpad_y = 0;] after the button loop
    of an iteration that starts with [NSGamepad.releaseAll()]. *)
Definition resolve_buttons (K : keymap) (tt : bool) (gpioa gpiob : Z)
  : list gp_call * (Z * Z) :=
  button_loop K tt gpioa gpiob ([ReleaseAll], (0, 0)).

(** One iteration of the control loop: the globals it leaves and the
    calls it makes on the gamepad, in order. *)
Definition main_loop (K : keymap) (g : globals) (i : tick_input)
  : globals * list gp_call :=
  let g1 := turbo_and_debounce g i in
  let '(calls1, dpad1) :=
    resolve_buttons K (TT g1) (GPIOA_state g1) (GPIOB_state g1) in
  let calls2 := calls1 ++ socd_dispatch dpad1 in
  let calls3 := calls2 ++ [Loop] in
  (g1, calls3).

(** Successive iterations: the globals after each one and its calls. *)
Fixpoint run (K : keymap) (g : globals) (ins : list tick_input)
  : list (globals * list gp_call) :=
  match ins with
  | [] => []
  | i :: rest =>
      let r := main_loop K g i in
      r :: run K (fst r) rest
  end.

(** A tick in which every [millis()] call returns [now]. *)
Definition tick_at (now gpioa gpiob : Z) : tick_input :=
  mkTick gpioa gpiob now now now now now now.

(** ** The report the gamepad object holds *)

Record report : Type := mkReport {
  buttons : list pad_value;
  dpad : pad_value
}.

Section Gamepad.

(** What [releaseAll] leaves in the D-pad field, given what was there;
    the gamepad library is not part of the firmware sources, and the
    loop is written not to depend on it. *)
Variable releaseAll_dpad : pad_value -> pad_value.

(** Modelled from the spec: the report sink.  [releaseAll] releases
    every button, [press] adds one button to the pressed set, [dPad]
    replaces the direction, and [loop] hands the report over as it is. *)
Definition apply_call (r : report) (c : gp_call) : report :=
  match c with
  | ReleaseAll => {| buttons := []; dpad := releaseAll_dpad (dpad r) |}
  | Press b => {| buttons := b :: buttons r; dpad := dpad r |}
  | DPad d => {| buttons := buttons r; dpad := d |}
  | Loop => r
  end.

Definition apply_calls (r : report) (cs : list gp_call) : report :=
  fold_left apply_call cs r.

End Gamepad.

(** ** Notions used to state the properties *)

(** The key a slot value denotes, as [HANDLE_KEY] decodes it. *)
Definition slot_key (v : Z) : Z := if v <? 0 then to_schar (- v) else v.

(** Whether a slot value carries the turbo flag. *)
Definition slot_turbo (v : Z) : bool := v <? 0.

(** The slot values of the pressed buttons, in the order the loop visits
    them: buttons ascending, [KEY1], [KEY2], [KEY3] for each. *)
Definition pressed_slots (K : keymap) (gpioa gpiob : Z) : list Z :=
  flat_map (fun b =>
              if button_pressed gpioa gpiob b
              then [nth b (KEY1 K) 0; nth b (KEY2 K) 0; nth b (KEY3 K) 0]
              else [])
           (seq 0 N_BUTTONS).

(** Both axes within [{-1, 0, 1}]. *)
Definition unit_range (d : Z * Z) : Prop :=
  -1 <= fst d <= 1 /\ -1 <= snd d <= 1.

Definition vadd (a b : Z * Z) : Z * Z := (fst a + fst b, snd a + snd b).
Definition vclamp (a : Z * Z) : Z * Z := (clamp1 (fst a), clamp1 (snd a)).

(** The directional contribution of a key: up is +1 on y, right is +1
    on x, diagonals move both axes. *)
Definition dp_delta (k : Z) : Z * Z := dp_switch k 0 0.

(** The directional contribution of a slot value; nothing for a slot that
    is not directional. *)
Definition slot_delta (v : Z) : Z * Z :=
  if IS_DP (slot_key v) then dp_delta (slot_key v) else (0, 0).

(** The exact integer sum of a list of contributions. *)
Definition vsum (l : list (Z * Z)) : Z * Z := fold_left vadd l (0, 0).

(** Clamp-after-summation, as the specification words it: sum every
    contribution of the tick, then clamp each axis once. *)
Definition clamp_after_sum (K : keymap) (gpioa gpiob : Z) : Z * Z :=
  vclamp (vsum (map slot_delta (pressed_slots K gpioa gpiob))).

(** Clamp-after-each-contribution: the running value is clamped after
    every contribution is added. *)
Definition clamp_each (l : list (Z * Z)) : Z * Z :=
  fold_left (fun acc d => vclamp (vadd acc d)) l (0, 0).

(** The accumulator after a sequence of slot values has been handled. *)
Definition after_slots (tt : bool) (vs : list Z) (d : Z * Z) : Z * Z :=
  fold_left (fun acc v => snd (HANDLE_KEY_body v tt acc)) vs d.

(** The presses a sequence of slot values makes. *)
Definition presses_of_slots (tt : bool) (vs : list Z) : list pad_value :=
  flat_map (fun v =>
              if (negb (slot_turbo v) || tt) && IS_BUTTON (slot_key v)
              then [KEYS2PAD (slot_key v)] else [])
           vs.

(** The buttons a tick resolves, described from the pressed buttons and
    the key arrays alone: some pressed button has a slot that denotes an
    ordinary button and is not held back by the turbo phase. *)
Definition resolved (K : keymap) (tt : bool) (gpioa gpiob : Z)
    (c : pad_value) : Prop :=
  exists (b : nat) (v : Z),
    (b < N_BUTTONS)%nat /\
    button_pressed gpioa gpiob b = true /\
    (v = nth b (KEY1 K) 0 \/ v = nth b (KEY2 K) 0 \/ v = nth b (KEY3 K) 0) /\
    IS_BUTTON (slot_key v) = true /\
    (slot_turbo v = false \/ tt = true) /\
    c = KEYS2PAD (slot_key v).

Definition is_dpad_call (c : gp_call) : bool :=
  match c with DPad _ => true | _ => false end.

(** *** Time *)

(** The [millis()] readings of one tick, in program order. *)
Definition clock_of (i : tick_input) : list Z :=
  [ millis_turbo_test i; millis_turbo_set i;
    millis_a_reset i; millis_b_reset i;
    millis_a_test i; millis_b_test i ].

(** The [millis()] readings of successive ticks. *)
Definition clock (ins : list tick_input) : list Z := flat_map clock_of ins.

(** A non-decreasing sequence of timestamps. *)
Definition monotonic (ts : list Z) : Prop := Sorted Z.le ts.

(** Timestamps that fit an [unsigned long]. *)
Definition ulong_range (t : Z) : Prop := 0 <= t < 2 ^ 32.

(** The two readings the turbo toggle takes in a tick. *)
Definition turbo_reads (i : tick_input) : Z * Z :=
  (millis_turbo_test i, millis_turbo_set i).

(** The value of [TT] after each of a sequence of ticks. *)
Definition TT_sequence (K : keymap) (g : globals) (ins : list tick_input)
  : list bool :=
  map (fun r => TT (fst r)) (run K g ins).

(** The timestamps at which [TT] was toggled during a sequence of ticks:
    for every tick that changes [TT], the [last_toggle_time] it records. *)
Fixpoint toggle_times (K : keymap) (g : globals) (ins : list tick_input)
  : list Z :=
  match ins with
  | [] => []
  | i :: rest =>
      let g1 := fst (main_loop K g i) in
      (if Bool.eqb (TT g1) (TT g) then [] else [last_toggle_time g1])
        ++ toggle_times K g1 rest
  end.

(** Two successive toggles at [a] and [b] are at least [TURBO_PERIOD]
    apart. *)
Definition turbo_gap (a b : Z) : Prop := (TURBO_PERIOD <= inject_Z (b - a))%Q.

(** The stable snapshots [(GPIOA_state, GPIOB_state)] after each tick. *)
Definition stable_snapshots (K : keymap) (g : globals)
    (ins : list tick_input) : list (Z * Z) :=
  map (fun r => (GPIOA_state (fst r), GPIOB_state (fst r))) (run K g ins).

(** *** Concrete inputs *)

(** A bounce on GPIOA: bit 0 (button 4) reads low at 100 ms and high again
    at 101 ms, well inside the 5 ms window; GPIOB stays idle. *)
Definition bounce_ticks : list tick_input :=
  [ tick_at 100 0xfe 0xff; tick_at 101 0xff 0xff ].

(** A row in the style of [remap10.h] whose button 9 is the combo
    "X and down" next to the combos "L and up", "A and up". *)
Definition remap_up_down : list Z :=
  [ K_DP_LEFT; K_NOOP; K_NOOP;   K_DP_DOWN; K_NOOP; K_NOOP;
    K_DP_RIGHT; K_NOOP; K_NOOP;  K_DP_UP; K_NOOP; K_NOOP;
    K_B; K_NOOP; K_NOOP;         K_Y; K_NOOP; K_NOOP;
    K_ZL; K_NOOP; K_NOOP;        K_L; K_DP_UP; K_NOOP;
    K_A; K_DP_UP; K_NOOP;        K_X; K_DP_DOWN; K_NOOP;
    K_A; K_NOOP; K_NOOP;         K_R; K_NOOP; K_NOOP;
    K_MINUS; K_NOOP; K_NOOP;     K_PLUS; K_NOOP; K_NOOP;
    K_HOME; K_NOOP; K_NOOP ].

(** Buttons 3 (pin 7), 7 (pin 8) and 9 (pin 4) held down. *)
Definition up_up_down_gpioa : Z := 0x6f.
Definition up_up_down_gpiob : Z := 0xfe.

(** A key array with every [K_DP_CENTER] entry replaced by [K_NOOP]. *)
Definition center_to_noop (KEYID : list Z) : list Z :=
  map (fun v => if v =? K_DP_CENTER then K_NOOP else v) KEYID.

(** ** The other remap tables among the sources *)

Definition remap01 : list Z :=
  [ K_DP_LEFT; K_NOOP; K_NOOP;   K_DP_DOWN; K_NOOP; K_NOOP;
    K_DP_RIGHT; K_NOOP; K_NOOP;  K_DP_UP; K_NOOP; K_NOOP;
    K_B; K_NOOP; K_NOOP;         K_Y; K_NOOP; K_NOOP;
    K_R; K_NOOP; K_NOOP;         K_ZL; K_NOOP; K_NOOP;
    K_L; K_NOOP; K_NOOP;         K_X; K_NOOP; K_NOOP;
    K_A; K_NOOP; K_NOOP;         K_ZR; K_NOOP; K_NOOP;
    K_MINUS; K_NOOP; K_NOOP;     K_PLUS; K_NOOP; K_NOOP;
    K_HOME; K_NOOP; K_NOOP ].

Definition remap02 : list Z :=
  [ K_DP_LEFT; K_NOOP; K_NOOP;   K_DP_DOWN; K_NOOP; K_NOOP;
    K_DP_RIGHT; K_NOOP; K_NOOP;  K_DP_UP; K_NOOP; K_NOOP;
    K_Y; K_NOOP; K_NOOP;         K_B; K_NOOP; K_NOOP;
    K_R; K_NOOP; K_NOOP;         K_L; K_NOOP; K_NOOP;
    - K_X; K_NOOP; K_NOOP;       - K_A; K_NOOP; K_NOOP;
    K_ZL; K_NOOP; K_NOOP;        K_ZR; K_NOOP; K_NOOP;
    K_MINUS; K_NOOP; K_NOOP;     K_PLUS; K_NOOP; K_NOOP;
    K_HOME; K_NOOP; K_NOOP ].

Definition remap04 : list Z :=
  [ K_DP_LEFT; K_NOOP; K_NOOP;   K_DP_DOWN; K_NOOP; K_NOOP;
    K_DP_RIGHT; K_NOOP; K_NOOP;  K_DP_UP; K_NOOP; K_NOOP;
    K_Y; K_NOOP; K_NOOP;         K_B; K_NOOP; K_NOOP;
    K_A; K_NOOP; K_NOOP;         K_ZL; K_NOOP; K_NOOP;
    K_A; K_NOOP; K_NOOP;         K_X; K_NOOP; K_NOOP;
    K_B; K_NOOP; K_NOOP;         K_ZR; K_NOOP; K_NOOP;
    K_MINUS; K_NOOP; K_NOOP;     K_PLUS; K_NOOP; K_NOOP;
    K_HOME; K_NOOP; K_NOOP ].

Definition remap05 : list Z :=
  [ K_DP_LEFT; K_NOOP; K_NOOP;   K_DP_DOWN; K_NOOP; K_NOOP;
    K_DP_RIGHT; K_NOOP; K_NOOP;  K_DP_UP; K_NOOP; K_NOOP;
    K_X; K_NOOP; K_NOOP;         K_Y; K_NOOP; K_NOOP;
    K_ZL; K_NOOP; K_NOOP;        K_ZR; K_NOOP; K_NOOP;
    K_A; K_NOOP; K_NOOP;         K_B; K_NOOP; K_NOOP;
    K_L; K_NOOP; K_NOOP;         K_R; K_NOOP; K_NOOP;
    K_MINUS; K_NOOP; K_NOOP;     K_PLUS; K_NOOP; K_NOOP;
    K_HOME; K_NOOP; K_NOOP ].

Definition remap06 : list Z :=
  [ K_DP_LEFT; K_NOOP; K_NOOP;   K_DP_DOWN; K_NOOP; K_NOOP;
    K_DP_RIGHT; K_NOOP; K_NOOP;  K_DP_UP; K_NOOP; K_NOOP;
    K_Y; K_NOOP; K_NOOP;         K_X; K_NOOP; K_NOOP;
    K_ZL; K_NOOP; K_NOOP;        K_ZR; K_NOOP; K_NOOP;
    K_B; K_NOOP; K_NOOP;         K_A; K_NOOP; K_NOOP;
    K_L; K_NOOP; K_NOOP;         K_R; K_NOOP; K_NOOP;
    K_MINUS; K_NOOP; K_NOOP;     K_PLUS; K_NOOP; K_NOOP;
    K_HOME; K_NOOP; K_NOOP ].

Definition remap07 : list Z :=
  [ K_DP_LEFT; K_NOOP; K_NOOP;   K_DP_DOWN; K_NOOP; K_NOOP;
    K_DP_RIGHT; K_NOOP; K_NOOP;  K_DP_UP; K_NOOP; K_NOOP;
    K_X; K_NOOP; K_NOOP;         K_A; K_NOOP; K_NOOP;
    K_B; K_A; K_NOOP;            K_L; K_NOOP; K_NOOP;
    K_B; K_NOOP; K_NOOP;         K_Y; K_NOOP; K_NOOP;
    K_A; K_NOOP; K_NOOP;         K_B; K_NOOP; K_NOOP;
    K_MINUS; K_NOOP; K_NOOP;     K_PLUS; K_NOOP; K_NOOP;
    K_HOME; K_NOOP; K_NOOP ].

Definition remap08 : list Z :=
  [ K_DP_LEFT; K_NOOP; K_NOOP;   K_DP_DOWN; K_NOOP; K_NOOP;
    K_DP_RIGHT; K_NOOP; K_NOOP;  K_DP_UP; K_NOOP; K_NOOP;
    K_B; K_NOOP; K_NOOP;         K_ZR; K_NOOP; K_NOOP;
    K_A; K_NOOP; K_NOOP;         K_L; K_NOOP; K_NOOP;
    K_A; K_NOOP; K_NOOP;         K_X; K_NOOP; K_NOOP;
    K_Y; K_NOOP; K_NOOP;         K_R; K_NOOP; K_NOOP;
    K_MINUS; K_NOOP; K_NOOP;     K_PLUS; K_NOOP; K_NOOP;
    K_HOME; K_NOOP; K_NOOP ].

(** The rows of [MAPPINGS] whose files are among the sources: rows 0 to 8
    and row 10. *)
Definition shipped_rows : list (list Z) :=
  [ remap00; remap01; remap02; remap03; remap04;
    remap05; remap06; remap07; remap08; remap10 ].

(** ** test/board/stubs.cpp and test/board/test.cpp *)

Module Stubs.

Definition MCP_ADDRESS : Z := 0x20.

(** The fields of class [_Wire]; all are [uint8_t] but [available]. *)
Record _Wire : Type := mk_Wire {
  current_address : Z;
  current_register : Z;
  next_value : Z;
  available : bool;
  gpioa : Z;
  gpiob : Z
}.

Definition beginTransmission (w : _Wire) (address : Z) : _Wire :=
  {| current_address := to_byte address;
     current_register := current_register w;
     next_value := next_value w;
     available := false;
     gpioa := gpioa w;
     gpiob := gpiob w |}.

Definition write (w : _Wire) (value : Z) : _Wire :=
  {| current_address := current_address w;
     current_register := to_byte value;
     next_value := next_value w;
     available := false;
     gpioa := gpioa w;
     gpiob := gpiob w |}.

Definition endTransmission (w : _Wire) : _Wire :=
  {| current_address := current_address w;
     current_register := current_register w;
     next_value := next_value w;
     available := false;
     gpioa := gpioa w;
     gpiob := gpiob w |}.

Definition requestFrom (w : _Wire) (address n : Z) : _Wire :=
  if to_byte address =? current_address w then
    if current_register w =? MCP_GPIOA then
      {| current_address := current_address w;
         current_register := current_register w;
         next_value := gpioa w;
         available := true;
         gpioa := gpioa w;
         gpiob := gpiob w |}
    else if current_register w =? MCP_GPIOB then
      {| current_address := current_address w;
         current_register := current_register w;
         next_value := gpiob w;
         available := true;
         gpioa := gpioa w;
         gpiob := gpiob w |}
    else
      {| current_address := current_address w;
         current_register := current_register w;
         next_value := next_value w;
         available := false;
         gpioa := gpioa w;
         gpiob := gpiob w |}
  else
    {| current_address := current_address w;
       current_register := current_register w;
       next_value := next_value w;
       available := false;
       gpioa := gpioa w;
       gpiob := gpiob w |}.

Definition read (w : _Wire) : Z :=
  if available w then next_value w else 0.

(** [_setState(pin, value)]: [gpiox |= bm] or [gpiox &= ~(bm)], the
    result stored back into a [uint8_t]. *)
Definition _setState (w : _Wire) (pin : Z) (value : bool) : _Wire :=
  let bm := to_byte (PIN2BITMASK pin) in
  if IS_GPIOA_PIN pin then
    {| current_address := current_address w;
       current_register := current_register w;
       next_value := next_value w;
       available := available w;
       gpioa := if value then to_byte (Z.lor (gpioa w) bm)
                else to_byte (Z.land (gpioa w) (Z.lnot bm));
       gpiob := gpiob w |}
  else
    {| current_address := current_address w;
       current_register := current_register w;
       next_value := next_value w;
       available := available w;
       gpioa := gpioa w;
       gpiob := if value then to_byte (Z.lor (gpiob w) bm)
                else to_byte (Z.land (gpiob w) (Z.lnot bm)) |}.

(** The macro [MCP_READ(REGISTER)] of [mcp.h] on the stub. *)
Definition MCP_READ (w : _Wire) (REGISTER : Z) : _Wire :=
  requestFrom
    (endTransmission (write (beginTransmission w MCP_ADDRESS) REGISTER))
    MCP_ADDRESS 1.

(** The macro [MCP_WRITE(REGISTER, VALUE)] of [mcp.h] on the stub. *)
Definition MCP_WRITE (w : _Wire) (REGISTER VALUE : Z) : _Wire :=
  endTransmission
    (write (write (beginTransmission w MCP_ADDRESS) REGISTER) VALUE).

(** The loop of [test.cpp] that drives the pins from [_presses]: pin of
    button [b] high unless [_presses[b]] is [LOW]. *)
Definition set_presses (w : _Wire) (_presses : list Z) : _Wire :=
  fold_left
    (fun w b => _setState w (nth b BUTTON2MCP 0) (nth b _presses HIGH =? HIGH))
    (seq 0 N_BUTTONS) w.

(** The two register reads at the head of [main_loop.h], on the stub. *)
Definition read_gpioa (w : _Wire) : Z := read (MCP_READ w MCP_GPIOA).
Definition read_gpiob (w : _Wire) : Z :=
  read (MCP_READ (MCP_READ w MCP_GPIOA) MCP_GPIOB).

End Stubs.

(** ** Further notions used to state properties *)

(** The buttons that read as pressed, ascending. *)
Definition pressed_buttons (gpioa gpiob : Z) : list nat :=
  filter (button_pressed gpioa gpiob) (seq 0 N_BUTTONS).

(** The slot values of all buttons, in the order the loop would visit
    them if every button were pressed. *)
Definition all_slots (K : keymap) : list Z :=
  flat_map (fun b => [nth b (KEY1 K) 0; nth b (KEY2 K) 0; nth b (KEY3 K) 0])
           (seq 0 N_BUTTONS).

(** A key map with a function applied to every entry. *)
Definition map_keymap (f : Z -> Z) (K : keymap) : keymap :=
  {| KEY1 := map f (KEY1 K); KEY2 := map f (KEY2 K); KEY3 := map f (KEY3 K) |}.

(** Every entry of the three arrays satisfies [P]. *)
Definition keymap_Forall (P : Z -> Prop) (K : keymap) : Prop :=
  Forall P (KEY1 K) /\ Forall P (KEY2 K) /\ Forall P (KEY3 K).

(** A slot value that fits a [signed char]. *)
Definition schar_range (v : Z) : Prop := -128 <= v <= 127.

(** A slot with the turbo flag taken off. *)
Definition strip_turbo (v : Z) : Z := Z.abs v.

(** A slot replaced by [K_NOOP] if it is a turbo-flagged button. *)
Definition drop_turbo (v : Z) : Z :=
  if (v <? 0) && IS_BUTTON (- v) then K_NOOP else v.

(** The calls the loop may make: [press] with the entry of an ordinary
    button, [dPad] with the entry of a direction. *)
Definition valid_call (c : gp_call) : Prop :=
  match c with
  | ReleaseAll => True
  | Loop => True
  | Press p => exists k, IS_BUTTON k = true /\ p = KEYS2PAD k
  | DPad p => exists k, IS_DP k = true /\ p = KEYS2PAD k
  end.

(** A table entry as the comments of [keys.h] allow it: no key, one of
    the eight directions without the turbo flag, or an ordinary button
    with or without it. *)
Definition valid_slot (v : Z) : bool :=
  (v =? K_NOOP) || ((K_DP_UP <=? v) && (v <=? K_DP_UP_LEFT))
  || IS_BUTTON (Z.abs v).

Definition valid_row (row : list Z) : bool :=
  (length row =? N_KEYS_PER_BUTTON * N_BUTTONS)%nat && forallb valid_slot row.

(** *** Order of the contributions on one axis *)

(** [l] is [m] with some elements left out. *)
Inductive sublist {A : Type} : list A -> list A -> Prop :=
  | sublist_nil : sublist [] []
  | sublist_skip (x : A) (l m : list A) : sublist l m -> sublist l (x :: m)
  | sublist_keep (x : A) (l m : list A) :
      sublist l m -> sublist (x :: l) (x :: m).

(** Contributions that all push the same way. *)
Definition one_sided (l : list Z) : bool :=
  forallb (fun c => (0 <=? c) && (c <=? 1)) l
  || forallb (fun c => (-1 <=? c) && (c <=? 0)) l.

(** Contributions in [{-1, 0, 1}] that, after the first non-zero one, all
    push the same way. *)
Fixpoint order_safe (l : list Z) : bool :=
  match l with
  | [] => true
  | c :: rest =>
      (-1 <=? c) && (c <=? 1)
      && (if c =? 0 then order_safe rest else one_sided rest)
  end.

(** The criterion on a key map: on each axis, the contributions of all
    slots in loop order are [order_safe]. *)
Definition socd_order_safe (K : keymap) : bool :=
  order_safe (map (fun v => fst (slot_delta v)) (all_slots K))
  && order_safe (map (fun v => snd (slot_delta v)) (all_slots K)).

(** Clamping after every addition, on one axis. *)
Definition sat_sum (l : list Z) (d : Z) : Z :=
  fold_left (fun a c => clamp1 (a + c)) l d.

(** The level of pin [PIN] of the expander (true for high), given the
    contents of its two registers: pins 0 to 7 are the bits of GPIOA, pins
    8 to 15 those of GPIOB. *)
Definition pin_level (gpioa gpiob PIN : Z) : bool :=
  Z.testbit (if IS_GPIOA_PIN PIN then gpioa else gpiob) (PIN mod 8).

(** * Properties *)

(** Closes [unit_range] goals on concrete or bounded vectors. *)
Ltac unit_range_tac := unfold unit_range in *; simpl in *; lia.

(** ** Machine integers and clamping *)

Lemma to_schar_small (z : Z) : -128 <= z <= 127 -> to_schar z = z.
Proof.
  intros Hz. unfold to_schar.
  rewrite Z.mod_small by lia. lia.
Qed.

Lemma to_ulong_small (z : Z) : 0 <= z < 2 ^ 32 -> to_ulong z = z.
Proof. intros Hz. unfold to_ulong. now apply Z.mod_small. Qed.

Lemma slot_key_abs (v : Z) : -127 <= v <= 127 -> slot_key v = Z.abs v.
Proof.
  intros Hv. unfold slot_key.
  destruct (Z.ltb_spec v 0).
  - rewrite to_schar_small by lia. lia.
  - lia.
Qed.

Lemma clamp1_range (d : Z) : -1 <= clamp1 d <= 1.
Proof.
  unfold clamp1.
  destruct (Z.gtb_spec d 1); [lia|].
  destruct (Z.ltb_spec d (-1)); lia.
Qed.

Lemma clamp1_id (d : Z) : -1 <= d <= 1 -> clamp1 d = d.
Proof.
  intros Hd. unfold clamp1.
  destruct (Z.gtb_spec d 1); [lia|].
  destruct (Z.ltb_spec d (-1)); lia.
Qed.

Lemma vclamp_unit (a : Z * Z) : unit_range (vclamp a).
Proof. split; apply clamp1_range. Qed.

Lemma vclamp_id (a : Z * Z) : unit_range a -> vclamp a = a.
Proof.
  destruct a as [x y]. intros [Hx Hy]. unfold vclamp. simpl in *.
  now rewrite !clamp1_id.
Qed.

(** ** The key tests *)

Lemma IS_BUTTON_spec (k : Z) : IS_BUTTON k = true <-> 10 <= k <= 23.
Proof. unfold IS_BUTTON, K_A, K_CAPTURE. lia. Qed.

Lemma IS_DP_spec (k : Z) : IS_DP k = true <-> 1 <= k <= 9.
Proof. unfold IS_DP, K_DP_UP, K_DP_CENTER. lia. Qed.

Lemma IS_DP_not_BUTTON (k : Z) : IS_DP k = true -> IS_BUTTON k = false.
Proof.
  rewrite IS_DP_spec. intros Hk.
  destruct (IS_BUTTON k) eqn:E; [|reflexivity].
  apply IS_BUTTON_spec in E. lia.
Qed.

(** The switch adds the key's contribution to the accumulator. *)
Lemma dp_switch_delta (k x y : Z) :
  dp_switch k x y = vadd (x, y) (dp_delta k).
Proof.
  unfold dp_delta, dp_switch, vadd.
  repeat (match goal with |- context [if ?c then _ else _] => destruct c end);
    simpl; f_equal; lia.
Qed.

(** ** One [HANDLE_KEY] expansion *)

(** The macro read through [slot_key] and [slot_turbo]. *)
Lemma HANDLE_KEY_body_eq (v : Z) (tt : bool) (d : Z * Z) :
  HANDLE_KEY_body v tt d =
  if (negb (slot_turbo v) || tt) && IS_BUTTON (slot_key v)
  then ([Press (KEYS2PAD (slot_key v))], d)
  else if IS_DP (slot_key v)
       then ([], vclamp (vadd d (dp_delta (slot_key v))))
       else ([], d).
Proof.
  unfold HANDLE_KEY_body, slot_key, slot_turbo.
  destruct (v <? 0); simpl negb.
  - destruct (_ && _); [reflexivity|].
    destruct (IS_DP _); [|reflexivity].
    destruct d as [x y]. simpl fst. simpl snd.
    now rewrite dp_switch_delta.
  - destruct (_ && _); [reflexivity|].
    destruct (IS_DP _); [|reflexivity].
    destruct d as [x y]. simpl fst. simpl snd.
    now rewrite dp_switch_delta.
Qed.

Lemma HANDLE_KEY_body_calls (v : Z) (tt : bool) (d : Z * Z) :
  fst (HANDLE_KEY_body v tt d) = map Press (presses_of_slots tt [v]).
Proof.
  rewrite HANDLE_KEY_body_eq. unfold presses_of_slots. simpl.
  destruct (_ && _); [reflexivity|].
  destruct (IS_DP _); reflexivity.
Qed.

Lemma HANDLE_KEY_body_unit (v : Z) (tt : bool) (d : Z * Z) :
  unit_range d -> unit_range (snd (HANDLE_KEY_body v tt d)).
Proof.
  intros Hd. rewrite HANDLE_KEY_body_eq.
  destruct (_ && _); [exact Hd|].
  destruct (IS_DP _); [apply vclamp_unit | exact Hd].
Qed.

(** Inside the unit square an expansion adds the slot's contribution and
    clamps. *)
Lemma HANDLE_KEY_body_acc (v : Z) (tt : bool) (d : Z * Z) :
  unit_range d ->
  snd (HANDLE_KEY_body v tt d) = vclamp (vadd d (slot_delta v)).
Proof.
  intros Hd. rewrite HANDLE_KEY_body_eq. unfold slot_delta.
  destruct (_ && _) eqn:E.
  - apply andb_prop in E. destruct E as [_ E].
    destruct (IS_DP (slot_key v)) eqn:E'.
    + apply IS_DP_not_BUTTON in E'. congruence.
    + simpl. destruct d as [x y]. unfold vadd. simpl.
      rewrite !Z.add_0_r. symmetry. now apply vclamp_id.
  - destruct (IS_DP _); [reflexivity|].
    simpl. destruct d as [x y]. unfold vadd. simpl.
    rewrite !Z.add_0_r. symmetry. now apply vclamp_id.
Qed.

(** ** The button loop *)

Lemma presses_of_slots_app (tt : bool) (l1 l2 : list Z) :
  presses_of_slots tt (l1 ++ l2) =
  presses_of_slots tt l1 ++ presses_of_slots tt l2.
Proof. unfold presses_of_slots. apply flat_map_app. Qed.

Lemma after_slots_app (tt : bool) (l1 l2 : list Z) (d : Z * Z) :
  after_slots tt (l1 ++ l2) d = after_slots tt l2 (after_slots tt l1 d).
Proof. unfold after_slots. apply fold_left_app. Qed.

Lemma after_slots_unit (tt : bool) (l : list Z) (d : Z * Z) :
  unit_range d -> unit_range (after_slots tt l d).
Proof.
  revert d. induction l as [|v l IH]; intros d Hd; simpl; [exact Hd|].
  apply IH. now apply HANDLE_KEY_body_unit.
Qed.

(** The three expansions made for one pressed button. *)
Lemma three_keys (K : keymap) (tt : bool) (b : nat) (cs : list gp_call)
    (d : Z * Z) :
  let vs := [nth b (KEY1 K) 0; nth b (KEY2 K) 0; nth b (KEY3 K) 0] in
  (let '(c1, d1) := HANDLE_KEY (KEY1 K) b tt d in
   let '(c2, d2) := HANDLE_KEY (KEY2 K) b tt d1 in
   let '(c3, d3) := HANDLE_KEY (KEY3 K) b tt d2 in
   (cs ++ c1 ++ c2 ++ c3, d3))
  = (cs ++ map Press (presses_of_slots tt vs), after_slots tt vs d).
Proof.
  intros vs. unfold HANDLE_KEY.
  pose proof (HANDLE_KEY_body_calls (nth b (KEY1 K) 0) tt d) as H1.
  destruct (HANDLE_KEY_body (nth b (KEY1 K) 0) tt d) as [c1 d1] eqn:E1.
  pose proof (HANDLE_KEY_body_calls (nth b (KEY2 K) 0) tt d1) as H2.
  destruct (HANDLE_KEY_body (nth b (KEY2 K) 0) tt d1) as [c2 d2] eqn:E2.
  pose proof (HANDLE_KEY_body_calls (nth b (KEY3 K) 0) tt d2) as H3.
  destruct (HANDLE_KEY_body (nth b (KEY3 K) 0) tt d2) as [c3 d3] eqn:E3.
  simpl fst in H1, H2, H3. subst c1 c2 c3.
  unfold vs, after_slots. simpl fold_left.
  rewrite E1. simpl snd. rewrite E2. simpl snd. rewrite E3. simpl snd.
  f_equal. f_equal.
  change [nth b (KEY1 K) 0; nth b (KEY2 K) 0; nth b (KEY3 K) 0]
    with ([nth b (KEY1 K) 0] ++ [nth b (KEY2 K) 0] ++ [nth b (KEY3 K) 0]).
  now rewrite !presses_of_slots_app, !map_app.
Qed.

Lemma button_fold (K : keymap) (tt : bool) (gpioa gpiob : Z) (bs : list nat) :
  forall (cs : list gp_call) (d : Z * Z),
    let slots :=
      flat_map (fun b =>
                  if button_pressed gpioa gpiob b
                  then [nth b (KEY1 K) 0; nth b (KEY2 K) 0; nth b (KEY3 K) 0]
                  else []) bs in
    fold_left (button_body K tt gpioa gpiob) bs (cs, d)
    = (cs ++ map Press (presses_of_slots tt slots), after_slots tt slots d).
Proof.
  induction bs as [|b bs IH]; intros cs d; simpl.
  - now rewrite app_nil_r.
  - unfold button_body at 2. simpl fst. simpl snd.
    destruct (button_pressed gpioa gpiob b).
    + rewrite three_keys. rewrite IH.
      rewrite presses_of_slots_app, after_slots_app, map_app, app_assoc.
      reflexivity.
    + rewrite IH. reflexivity.
Qed.

(** The loop makes the presses of the pressed buttons' slots, in order,
    and leaves the accumulator those slots produce. *)
Lemma button_loop_slots (K : keymap) (tt : bool) (gpioa gpiob : Z)
    (cs : list gp_call) (d : Z * Z) :
  button_loop K tt gpioa gpiob (cs, d)
  = (cs ++ map Press (presses_of_slots tt (pressed_slots K gpioa gpiob)),
     after_slots tt (pressed_slots K gpioa gpiob) d).
Proof. unfold button_loop, pressed_slots. apply button_fold. Qed.

Lemma resolve_buttons_slots (K : keymap) (tt : bool) (gpioa gpiob : Z) :
  resolve_buttons K tt gpioa gpiob
  = (ReleaseAll :: map Press (presses_of_slots tt (pressed_slots K gpioa gpiob)),
     after_slots tt (pressed_slots K gpioa gpiob) (0, 0)).
Proof. unfold resolve_buttons. now rewrite button_loop_slots. Qed.

Lemma resolve_buttons_unit (K : keymap) (tt : bool) (gpioa gpiob : Z) :
  unit_range (snd (resolve_buttons K tt gpioa gpiob)).
Proof.
  rewrite resolve_buttons_slots. simpl snd.
  apply after_slots_unit. unit_range_tac.
Qed.

(** ** The direction dispatch *)

Lemma socd_select_total (x y : Z) :
  -1 <= x <= 1 -> -1 <= y <= 1 ->
  exists k, socd_select x y = Some k /\ IS_DP k = true.
Proof.
  intros Hx Hy.
  assert (Ex : x = -1 \/ x = 0 \/ x = 1) by lia.
  assert (Ey : y = -1 \/ y = 0 \/ y = 1) by lia.
  destruct Ex as [-> | [-> | ->]]; destruct Ey as [-> | [-> | ->]];
    eexists; (split; [reflexivity | reflexivity]).
Qed.

(** The dispatch inverts the contribution table: the key it selects is
    the one whose contribution is the accumulator. *)
Lemma socd_select_inv (x y k : Z) :
  socd_select x y = Some k -> IS_DP k = true /\ dp_delta k = (x, y).
Proof.
  unfold socd_select.
  repeat (match goal with
          | |- context [(?a =? ?b) && _] => destruct (Z.eqb_spec a b)
          | |- context [if ?a =? ?b then _ else _] =>
              destruct (Z.eqb_spec a b)
          end; simpl andb);
    intros E; try discriminate E; injection E as <-; subst;
    try lia; split; reflexivity.
Qed.


(** ** Turbo gating and directions *)





(** C9.  [K_DP_CENTER] passes the [IS_DP] test and matches no [case] of
    the switch: on an accumulator within the unit square (as it always is
    inside a tick) a slot holding it makes no call and leaves the
    accumulator as it was, exactly like a [K_NOOP] slot. *)
Theorem center_slot_is_noop (KEYID : list Z) (B : nat) (tt : bool)
    (d : Z * Z) :
  nth B KEYID 0 = K_DP_CENTER ->
  unit_range d ->
  IS_DP K_DP_CENTER = true
  /\ dp_switch K_DP_CENTER (fst d) (snd d) = d
  /\ HANDLE_KEY KEYID B tt d = ([], d)
  /\ HANDLE_KEY KEYID B tt d = HANDLE_KEY_body K_NOOP tt d.
Proof.
  intros Hv Hd. unfold HANDLE_KEY. rewrite Hv.
  destruct d as [x y]. destruct Hd as [Hx Hy]. simpl in Hx, Hy.
  assert (E : HANDLE_KEY_body K_DP_CENTER tt (x, y) = ([], (x, y))).
  { unfold HANDLE_KEY_body. destruct tt; simpl; now rewrite !clamp1_id. }
  split; [reflexivity|].
  split; [reflexivity|].
  split; exact E.
Qed.

Lemma center_slot_is_noop_witness :
  nth 0 [K_DP_CENTER] 0 = K_DP_CENTER
  /\ unit_range (1, -1)
  /\ HANDLE_KEY [K_DP_CENTER] 0 true (1, -1) = ([], (1, -1)).
Proof.
  split; [reflexivity|].
  split; [unfold unit_range; simpl; lia|].
  apply (center_slot_is_noop [K_DP_CENTER] 0 true (1, -1) eq_refl).
  unfold unit_range; simpl; lia.
Defined.

(** C10.  Starting from [(0, 0)], the accumulator is within
    [{-1,0,1} x {-1,0,1}] after every single slot handled in a tick, so
    the accumulator at the end of the button loop is one of the nine
    vectors for which the dispatch chain has a branch. *)
Theorem accumulator_invariant (K : keymap) (tt : bool) (gpioa gpiob : Z) :
  let slots := pressed_slots K gpioa gpiob in
  let final := snd (resolve_buttons K tt gpioa gpiob) in
  (forall n : nat, unit_range (after_slots tt (firstn n slots) (0, 0)))
  /\ final = after_slots tt slots (0, 0)
  /\ unit_range final
  /\ exists k, IS_DP k = true /\ socd_select (fst final) (snd final) = Some k.
Proof.
  intros slots final.
  assert (H0 : unit_range (0, 0)) by unit_range_tac.
  assert (Hf : unit_range final) by apply resolve_buttons_unit.
  split; [intros n; now apply after_slots_unit|].
  split; [unfold final; now rewrite resolve_buttons_slots|].
  split; [exact Hf|].
  destruct Hf as [Hx Hy].
  destruct (socd_select_total _ _ Hx Hy) as [k [Hs Hk]].
  now exists k.
Qed.


(** ** One iteration *)

Lemma main_loop_globals (K : keymap) (g : globals) (i : tick_input) :
  fst (main_loop K g i) = turbo_and_debounce g i.
Proof.
  unfold main_loop.
  now destruct (resolve_buttons _ _ _ _).
Qed.

(** The calls of one iteration: release everything, press what the
    pressed buttons' slots resolve to, set one direction, send. *)
Lemma main_loop_calls (K : keymap) (g : globals) (i : tick_input) :
  let g1 := turbo_and_debounce g i in
  let slots := pressed_slots K (GPIOA_state g1) (GPIOB_state g1) in
  exists k,
    IS_DP k = true
    /\ dp_delta k = after_slots (TT g1) slots (0, 0)
    /\ snd (main_loop K g i)
       = ReleaseAll :: map Press (presses_of_slots (TT g1) slots)
           ++ [DPad (KEYS2PAD k); Loop].
Proof.
  intros g1 slots. unfold main_loop. fold g1.
  pose proof (resolve_buttons_unit K (TT g1) (GPIOA_state g1) (GPIOB_state g1))
    as Hu.
  rewrite resolve_buttons_slots in Hu |- *. fold slots in Hu |- *.
  simpl snd in Hu. destruct Hu as [Hx Hy].
  destruct (socd_select_total _ _ Hx Hy) as [k [Hs Hk]].
  exists k. split; [exact Hk|].
  split.
  - apply socd_select_inv in Hs. destruct Hs as [_ Hs]. rewrite Hs.
    now destruct (after_slots (TT g1) slots (0, 0)).
  - simpl snd. unfold socd_dispatch. rewrite Hs.
    rewrite <- app_assoc. reflexivity.
Qed.

Lemma filter_dpad_presses (ps : list pad_value) :
  filter is_dpad_call (map Press ps) = [].
Proof. induction ps as [|p ps IH]; simpl; auto. Qed.

Section GamepadFacts.

Variable releaseAll_dpad : pad_value -> pad_value.

Lemma apply_presses (ps : list pad_value) :
  forall r : report,
    apply_calls releaseAll_dpad r (map Press ps)
    = {| buttons := rev ps ++ buttons r; dpad := dpad r |}.
Proof.
  unfold apply_calls.
  induction ps as [|p ps IH]; intros r; simpl.
  - now destruct r.
  - rewrite IH. simpl. now rewrite <- app_assoc.
Qed.

(** The report after the calls of one iteration does not depend on the
    report before it. *)
Lemma apply_tick_calls (r : report) (ps : list pad_value) (d : pad_value) :
  apply_calls releaseAll_dpad r
    (ReleaseAll :: map Press ps ++ [DPad d; Loop])
  = {| buttons := rev ps; dpad := d |}.
Proof.
  unfold apply_calls. simpl. rewrite fold_left_app.
  fold (apply_calls releaseAll_dpad
          {| buttons := []; dpad := releaseAll_dpad (dpad r) |}
          (map Press ps)).
  rewrite apply_presses. simpl. now rewrite app_nil_r.
Qed.

End GamepadFacts.

(** C5.  The dispatch is total on the nine clamped vectors, each going
    to one directional key, different vectors to different keys; and
    every iteration calls [dPad] exactly once with such a value, which is
    the direction of the report whatever the report held before. *)
Theorem direction_dispatch (releaseAll_dpad : pad_value -> pad_value)
    (K : keymap) (g : globals) (i : tick_input) (r : report) :
  (forall x y : Z, -1 <= x <= 1 -> -1 <= y <= 1 ->
     exists k, socd_select x y = Some k /\ IS_DP k = true
               /\ dp_delta k = (x, y))
  /\ (forall x y x' y' k : Z,
        socd_select x y = Some k -> socd_select x' y' = Some k ->
        (x, y) = (x', y'))
  /\ (exists k,
        IS_DP k = true
        /\ filter is_dpad_call (snd (main_loop K g i)) = [DPad (KEYS2PAD k)]
        /\ dpad (apply_calls releaseAll_dpad r (snd (main_loop K g i)))
           = KEYS2PAD k).
Proof.
  split; [|split].
  - intros x y Hx Hy.
    destruct (socd_select_total x y Hx Hy) as [k [Hs Hk]].
    exists k. repeat split; auto. now apply socd_select_inv.
  - intros x y x' y' k H1 H2.
    apply socd_select_inv in H1, H2.
    destruct H1 as [_ H1]. destruct H2 as [_ H2]. congruence.
  - destruct (main_loop_calls K g i) as [k [Hk [_ Hc]]].
    exists k. split; [exact Hk|]. rewrite Hc. split.
    + simpl. rewrite filter_app, filter_dpad_presses. reflexivity.
    + now rewrite apply_tick_calls.
Qed.

Lemma direction_dispatch_witness :
  -1 <= 1 <= 1 /\ -1 <= -1 <= 1
  /\ exists k, socd_select 1 (-1) = Some k /\ IS_DP k = true
               /\ dp_delta k = (1, -1).
Proof.
  split; [lia|]. split; [lia|].
  apply (proj1 (direction_dispatch (fun d => d) (load_keys remap00)
                  initial_globals (tick_at 100 0xff 0xff)
                  {| buttons := []; dpad := PAD_0 |})); lia.
Defined.

Lemma in_presses_of_slots (tt : bool) (vs : list Z) (c : pad_value) :
  In c (presses_of_slots tt vs) <->
  exists v, In v vs /\ IS_BUTTON (slot_key v) = true
            /\ (slot_turbo v = false \/ tt = true)
            /\ c = KEYS2PAD (slot_key v).
Proof.
  unfold presses_of_slots. rewrite in_flat_map.
  split; intros [v [Hv H]]; exists v; (split; [exact Hv|]).
  - destruct (_ && _) eqn:E; [|contradiction].
    apply andb_prop in E. destruct E as [E1 E2].
    destruct H as [H | []].
    split; [exact E2|]. split; [|now symmetry].
    apply orb_prop in E1. destruct E1 as [E1 | E1]; [left | now right].
    now apply negb_true_iff in E1.
  - destruct H as [Hb [Ht Hc]]. rewrite Hb, andb_true_r.
    replace (negb (slot_turbo v) || tt) with true.
    + left. now symmetry.
    + destruct Ht as [-> | ->]; [reflexivity | now rewrite orb_true_r].
Qed.

Lemma in_pressed_slots (K : keymap) (gpioa gpiob : Z) (v : Z) :
  In v (pressed_slots K gpioa gpiob) <->
  exists b, (b < N_BUTTONS)%nat /\ button_pressed gpioa gpiob b = true
            /\ (v = nth b (KEY1 K) 0 \/ v = nth b (KEY2 K) 0
                \/ v = nth b (KEY3 K) 0).
Proof.
  unfold pressed_slots. rewrite in_flat_map.
  split; intros [b [Hb H]]; exists b.
  - apply in_seq in Hb. split; [lia|].
    destruct (button_pressed gpioa gpiob b); [|contradiction].
    split; [reflexivity|]. simpl in H. intuition.
  - destruct H as [Hp H]. split; [apply in_seq; lia|].
    rewrite Hp. simpl. intuition.
Qed.

(** C7.  Full replacement.  An iteration first releases all buttons and
    only then presses; the buttons of the report at the end of the
    iteration are exactly those resolved from the buttons pressed in this
    iteration, whatever the report held before. *)
Theorem full_replacement (releaseAll_dpad : pad_value -> pad_value)
    (K : keymap) (g : globals) (i : tick_input) (r : report) :
  let g1 := fst (main_loop K g i) in
  let calls := snd (main_loop K g i) in
  (exists ps d, calls = ReleaseAll :: map Press ps ++ [DPad d; Loop])
  /\ (forall c : pad_value,
        In c (buttons (apply_calls releaseAll_dpad r calls)) <->
        resolved K (TT g1) (GPIOA_state g1) (GPIOB_state g1) c).
Proof.
  intros g1 calls. unfold g1, calls. rewrite main_loop_globals.
  destruct (main_loop_calls K g i) as [k [_ [_ Hc]]].
  rewrite Hc. split; [eauto|].
  intros c. rewrite apply_tick_calls. simpl buttons.
  rewrite <- in_rev, in_presses_of_slots. unfold resolved.
  split.
  - intros [v [Hv H]]. apply in_pressed_slots in Hv.
    destruct Hv as [b [Hb [Hp Hv]]]. exists b, v. tauto.
  - intros [b [v [Hb [Hp [Hv H]]]]]. exists v. split; [|exact H].
    apply in_pressed_slots. exists b. tauto.
Qed.

(** ** Start-up

    C8.  Whatever the four configuration bits are, [CFG] is a valid row
    number of [MAPPINGS]. *)
Theorem CFG_in_range (cfg1 cfg2 cfg3 cfg4 : bool) :
  0 <= compute_CFG cfg1 cfg2 cfg3 cfg4 < N_REMAPPINGS.
Proof.
  destruct cfg1, cfg2, cfg3, cfg4; vm_compute; split; congruence.
Qed.


(** ** Clamping and summation *)

Lemma after_slots_clamp_each (tt : bool) (vs : list Z) :
  forall d : Z * Z,
    unit_range d ->
    after_slots tt vs d
    = fold_left (fun acc dl => vclamp (vadd acc dl)) (map slot_delta vs) d.
Proof.
  unfold after_slots.
  induction vs as [|v vs IH]; intros d Hd; simpl; [reflexivity|].
  rewrite (HANDLE_KEY_body_acc v tt d Hd).
  apply IH, vclamp_unit.
Qed.

(** While the exact partial sums stay within the unit square, clamping
    after every contribution changes nothing. *)
Lemma clamp_steps_exact (l : list (Z * Z)) :
  forall d : Z * Z,
    (forall n : nat, unit_range (fold_left vadd (firstn n l) d)) ->
    fold_left (fun acc dl => vclamp (vadd acc dl)) l d = fold_left vadd l d.
Proof.
  induction l as [|a l IH]; intros d H; simpl; [reflexivity|].
  rewrite (vclamp_id (vadd d a)) by exact (H 1%nat).
  apply IH. intros n. exact (H (S n)).
Qed.

(** C2, as amended.  The accumulator at the end of the button loop is
    the result of adding the directional contributions of the pressed
    buttons' slots one by one, in loop order, clamping both axes after
    every single one.  It is the exact sum, and so the clamped exact sum,
    whenever no partial sum leaves the unit square. *)
Theorem clamp_after_each_contribution (K : keymap) (tt : bool)
    (gpioa gpiob : Z) :
  let deltas := map slot_delta (pressed_slots K gpioa gpiob) in
  snd (resolve_buttons K tt gpioa gpiob) = clamp_each deltas
  /\ ((forall n : nat, unit_range (vsum (firstn n deltas))) ->
      snd (resolve_buttons K tt gpioa gpiob) = vsum deltas
      /\ snd (resolve_buttons K tt gpioa gpiob)
         = clamp_after_sum K gpioa gpiob).
Proof.
  intros deltas.
  assert (E : snd (resolve_buttons K tt gpioa gpiob) = clamp_each deltas).
  { rewrite resolve_buttons_slots. simpl snd.
    apply after_slots_clamp_each. unit_range_tac. }
  split; [exact E|].
  intros H.
  assert (E' : clamp_each deltas = vsum deltas).
  { unfold clamp_each, vsum. now apply clamp_steps_exact. }
  split; [congruence|].
  rewrite E, E'. unfold clamp_after_sum. fold deltas.
  symmetry. apply vclamp_id.
  specialize (H (length deltas)). now rewrite firstn_all in H.
Qed.

Lemma clamp_after_each_contribution_witness :
  (forall n : nat,
     unit_range
       (vsum (firstn n (map slot_delta
                          (pressed_slots (load_keys remap10) 0x7f 0xd7)))))
  /\ snd (resolve_buttons (load_keys remap10) false 0x7f 0xd7) = (0, 1)
  /\ clamp_after_sum (load_keys remap10) 0x7f 0xd7 = (0, 1).
Proof.
  assert (H : forall n : nat,
     unit_range
       (vsum (firstn n (map slot_delta
                          (pressed_slots (load_keys remap10) 0x7f 0xd7))))).
  { intros n.
    do 10 (destruct n as [|n]; [vm_compute; repeat split; discriminate|]).
    vm_compute; repeat split; discriminate. }
  split; [exact H|].
  destruct (proj2 (clamp_after_each_contribution
                     (load_keys remap10) false 0x7f 0xd7) H) as [E1 E2].
  split.
  - exact E1.
  - rewrite <- E2. exact E1.
Defined.

(** C2 as stated fails: with "up", "L and up", "X and down" held, the
    loop clamps 1 + 1 to 1 before the -1 arrives and ends on the centre,
    while the clamped exact sum is "up". *)
Lemma clamp_after_sum_fails :
  snd (resolve_buttons (load_keys remap_up_down) false
         up_up_down_gpioa up_up_down_gpiob) = (0, 0)
  /\ clamp_after_sum (load_keys remap_up_down)
       up_up_down_gpioa up_up_down_gpiob = (0, 1)
  /\ snd (main_loop (load_keys remap_up_down) initial_globals
            (tick_at 100 up_up_down_gpioa up_up_down_gpiob))
     = [ReleaseAll; Press NSButton_LeftTrigger; Press NSButton_X;
        DPad NSGAMEPAD_DPAD_CENTERED; Loop]
  /\ snd (resolve_buttons (load_keys remap_up_down) false
            up_up_down_gpioa up_up_down_gpiob)
     <> clamp_after_sum (load_keys remap_up_down)
          up_up_down_gpioa up_up_down_gpiob.
Proof.
  split; [reflexivity|]. split; [reflexivity|]. split; [reflexivity|].
  vm_compute. discriminate.
Qed.


(** ** The turbo toggle *)

(** Against an integer number of milliseconds, the period is 14. *)
Lemma turbo_due_spec (now last : Z) :
  turbo_due now last = true <-> 14 <= to_ulong (now - last).
Proof.
  unfold turbo_due. rewrite Qle_bool_iff.
  unfold Qle, TURBO_PERIOD. simpl. lia.
Qed.

Lemma turbo_gap_spec (a b : Z) : turbo_gap a b <-> 14 <= b - a.
Proof. unfold turbo_gap, Qle, TURBO_PERIOD. simpl. lia. Qed.

Lemma turbo_step_TT (g : globals) (i : tick_input) :
  TT (turbo_and_debounce g i)
  = if turbo_due (millis_turbo_test i) (last_toggle_time g)
    then negb (TT g) else TT g.
Proof.
  unfold turbo_and_debounce.
  now destruct (turbo_due _ _).
Qed.

Lemma turbo_step_time (g : globals) (i : tick_input) :
  last_toggle_time (turbo_and_debounce g i)
  = if turbo_due (millis_turbo_test i) (last_toggle_time g)
    then millis_turbo_set i else last_toggle_time g.
Proof.
  unfold turbo_and_debounce.
  now destruct (turbo_due _ _).
Qed.

(** What one tick adds to the toggle times. *)
Lemma toggle_times_cons (K : keymap) (g : globals) (i : tick_input)
    (rest : list tick_input) :
  toggle_times K g (i :: rest)
  = (if turbo_due (millis_turbo_test i) (last_toggle_time g)
     then [millis_turbo_set i] else [])
    ++ toggle_times K (turbo_and_debounce g i) rest.
Proof.
  simpl. rewrite main_loop_globals, turbo_step_TT, turbo_step_time.
  destruct (turbo_due _ _).
  - now destruct (TT g).
  - now rewrite eqb_reflx.
Qed.

(** [TT] and the toggle times depend on the turbo readings only. *)
Lemma turbo_depends_on_time_only (K K' : keymap) (ins : list tick_input) :
  forall (ins' : list tick_input) (g g' : globals),
    TT g' = TT g ->
    last_toggle_time g' = last_toggle_time g ->
    map turbo_reads ins' = map turbo_reads ins ->
    TT_sequence K' g' ins' = TT_sequence K g ins
    /\ toggle_times K' g' ins' = toggle_times K g ins.
Proof.
  induction ins as [|i ins IH]; intros [|i' ins'] g g' Ht Hl Hm;
    try discriminate Hm; [split; reflexivity|].
  simpl in Hm. unfold turbo_reads at 1 3 in Hm. injection Hm as Hi1 Hi2 Hm.
  assert (Ht1 : TT (turbo_and_debounce g' i') = TT (turbo_and_debounce g i)).
  { rewrite !turbo_step_TT. now rewrite Hi1, Hl, Ht. }
  assert (Hl1 : last_toggle_time (turbo_and_debounce g' i')
                = last_toggle_time (turbo_and_debounce g i)).
  { rewrite !turbo_step_time. now rewrite Hi1, Hi2, Hl. }
  destruct (IH ins' _ _ Ht1 Hl1 Hm) as [E1 E2].
  split.
  - unfold TT_sequence in *. simpl. rewrite !main_loop_globals.
    now rewrite Ht1, E1.
  - rewrite !toggle_times_cons. now rewrite Hi1, Hi2, Hl, E2.
Qed.

Lemma toggle_times_length (K : keymap) (ins : list tick_input) :
  forall g : globals, (length (toggle_times K g ins) <= length ins)%nat.
Proof.
  induction ins as [|i ins IH]; intros g; [simpl; lia|].
  rewrite toggle_times_cons, length_app.
  specialize (IH (turbo_and_debounce g i)).
  destruct (turbo_due _ _); simpl; lia.
Qed.

(** From a non-decreasing sequence, drop a stretch after one of its
    elements. *)
Lemma monotonic_skip (a b : Z) (l1 l2 : list Z) :
  monotonic (a :: l1 ++ l2) -> In b (a :: l1) -> monotonic (b :: l2).
Proof.
  unfold monotonic. intros H Hb.
  apply Sorted_StronglySorted in H; [|exact Z.le_trans].
  apply StronglySorted_Sorted.
  revert a H Hb. induction l1 as [|c l1 IH]; intros a H Hb.
  - destruct Hb as [<- | []]. exact H.
  - destruct Hb as [<- | Hb].
    + apply StronglySorted_inv in H. destruct H as [H1 H2].
      simpl in H1. apply StronglySorted_inv in H1. destruct H1 as [H1 _].
      apply (IH a); [|now left].
      constructor; [exact H1|]. now inversion H2.
    + apply StronglySorted_inv in H. destruct H as [H1 _].
      now apply (IH c).
Qed.

Lemma toggle_spacing (K : keymap) (ins : list tick_input) :
  forall g : globals,
    ulong_range (last_toggle_time g) ->
    Forall ulong_range (clock ins) ->
    monotonic (last_toggle_time g :: clock ins) ->
    HdRel turbo_gap (last_toggle_time g) (toggle_times K g ins)
    /\ Sorted turbo_gap (toggle_times K g ins).
Proof.
  induction ins as [|i ins IH]; intros g Hr Hc Hm.
  - split; constructor.
  - rewrite toggle_times_cons.
    change (clock (i :: ins)) with (clock_of i ++ clock ins) in Hc, Hm.
    apply Forall_app in Hc. destruct Hc as [Hci Hc].
    assert (Hle : last_toggle_time g <= millis_turbo_test i
                  /\ millis_turbo_test i <= millis_turbo_set i).
    { unfold monotonic, clock_of in Hm. simpl in Hm.
      apply Sorted_inv in Hm. destruct Hm as [Hm H1].
      apply HdRel_inv in H1.
      apply Sorted_inv in Hm. destruct Hm as [Hm H2].
      apply HdRel_inv in H2. lia. }
    assert (Hr1 : ulong_range (millis_turbo_test i)).
    { apply (proj1 (Forall_forall _ _) Hci). simpl. auto. }
    assert (Hr2 : ulong_range (millis_turbo_set i)).
    { apply (proj1 (Forall_forall _ _) Hci). simpl. auto. }
    pose proof (turbo_step_time g i) as Ht.
    destruct (turbo_due (millis_turbo_test i) (last_toggle_time g)) eqn:Hd.
    + apply turbo_due_spec in Hd.
      rewrite to_ulong_small in Hd by (unfold ulong_range in *; lia).
      destruct (IH (turbo_and_debounce g i)) as [H1 H2].
      * now rewrite Ht.
      * exact Hc.
      * rewrite Ht. apply (monotonic_skip _ _ _ _ Hm). simpl. auto.
      * rewrite Ht in H1. simpl. split.
        -- constructor. apply turbo_gap_spec. lia.
        -- constructor; assumption.
    + destruct (IH (turbo_and_debounce g i)) as [H1 H2].
      * now rewrite Ht.
      * exact Hc.
      * rewrite Ht. apply (monotonic_skip _ _ _ _ Hm). simpl. auto.
      * rewrite Ht in H1. simpl. now split.
Qed.

(** C6.  The turbo clock.  Over timestamps that do not decrease (and fit
    an [unsigned long]): the values of [TT] and the toggle times are
    determined by the turbo readings alone, whatever the key arrays, the
    register readings and the other globals are; an iteration either
    leaves [TT] and [last_toggle_time] alone or flips [TT] once and
    records the time; and two successive toggle times are at least
    [TURBO_PERIOD] apart. *)
Theorem turbo_clock (K K' : keymap) (g g' : globals)
    (ins ins' : list tick_input) :
  ulong_range (last_toggle_time g) ->
  Forall ulong_range (clock ins) ->
  monotonic (last_toggle_time g :: clock ins) ->
  (TT g' = TT g -> last_toggle_time g' = last_toggle_time g ->
   map turbo_reads ins' = map turbo_reads ins ->
   TT_sequence K' g' ins' = TT_sequence K g ins
   /\ toggle_times K' g' ins' = toggle_times K g ins)
  /\ (length (toggle_times K g ins) <= length ins)%nat
  /\ (forall i : tick_input,
        let g1 := fst (main_loop K g i) in
        (TT g1 = TT g /\ last_toggle_time g1 = last_toggle_time g)
        \/ (TT g1 = negb (TT g) /\ last_toggle_time g1 = millis_turbo_set i))
  /\ Sorted turbo_gap (toggle_times K g ins).
Proof.
  intros Hr Hc Hm.
  split; [intros; now apply turbo_depends_on_time_only|].
  split; [apply toggle_times_length|].
  split; [|now apply toggle_spacing].
  intros i g1. unfold g1.
  rewrite main_loop_globals, turbo_step_TT, turbo_step_time.
  destruct (turbo_due _ _); auto.
Qed.

Lemma turbo_clock_witness :
  let ins := [ tick_at 0 0xff 0xff; tick_at 7 0xff 0xff;
               tick_at 14 0xff 0xff; tick_at 21 0xff 0xff;
               tick_at 28 0xfe 0xff ] in
  TT_sequence (load_keys remap03) initial_globals ins
    = [false; false; true; true; false]
  /\ toggle_times (load_keys remap03) initial_globals ins = [14; 28]
  /\ Sorted turbo_gap (toggle_times (load_keys remap03) initial_globals ins).
Proof.
  intros ins.
  split; [reflexivity|]. split; [reflexivity|].
  apply (turbo_clock (load_keys remap03) (load_keys remap03)
           initial_globals initial_globals ins ins).
  - vm_compute. split; [discriminate | reflexivity].
  - repeat constructor; discriminate.
  - unfold monotonic. repeat constructor; discriminate.
Defined.


(** ** Debouncing *)

(** The stable snapshot is the raw reading of the same tick: the
    assignment made right after each register read leaves the debouncing
    block nothing to update. *)
Lemma stable_is_raw (g : globals) (i : tick_input) :
  GPIOA_state (turbo_and_debounce g i) = to_byte (wire_gpioa i)
  /\ GPIOB_state (turbo_and_debounce g i) = to_byte (wire_gpiob i).
Proof.
  unfold turbo_and_debounce.
  destruct (turbo_due _ _); simpl;
    rewrite !Z.eqb_refl; simpl;
    destruct (debounce_due _ _); destruct (debounce_due _ _); auto.
Qed.

(** C1.  A bounce is not rejected.  GPIOA reads [0xfe] at 100 ms and
    [0xff] again at 101 ms, inside the 5 ms window; the stable snapshot
    nevertheless follows the raw reading in the very tick it changes, and
    the button behind the bouncing bit is pressed on the gamepad. *)
Theorem bounce_reaches_stable_snapshot :
  (GPIOA_state initial_globals, GPIOB_state initial_globals) = (0xff, 0xff)
  /\ stable_snapshots (load_keys remap00) initial_globals bounce_ticks
     = [(0xfe, 0xff); (0xff, 0xff)]
  /\ map snd (run (load_keys remap00) initial_globals bounce_ticks)
     = [ [ReleaseAll; Press NSButton_Y; DPad NSGAMEPAD_DPAD_CENTERED; Loop];
         [ReleaseAll; DPad NSGAMEPAD_DPAD_CENTERED; Loop] ].
Proof. repeat split. Qed.

(** ** [K_DP_CENTER] entries in the key arrays *)

Lemma center_to_noop_nth (KEYID : list Z) (b : nat) :
  nth b (center_to_noop KEYID) 0
  = if nth b KEYID 0 =? K_DP_CENTER then K_NOOP else nth b KEYID 0.
Proof.
  unfold center_to_noop.
  now rewrite <- (map_nth (fun v => if v =? K_DP_CENTER then K_NOOP else v)).
Qed.

Lemma center_as_noop_step (v : Z) (tt : bool) (d : Z * Z) :
  unit_range d ->
  HANDLE_KEY_body (if v =? K_DP_CENTER then K_NOOP else v) tt d
  = HANDLE_KEY_body v tt d.
Proof.
  intros Hd. destruct (Z.eqb_spec v K_DP_CENTER) as [-> | _]; [|reflexivity].
  destruct d as [x y]. destruct Hd as [Hx Hy]. simpl in Hx, Hy.
  unfold HANDLE_KEY_body. destruct tt; simpl; now rewrite !clamp1_id.
Qed.

Lemma center_as_noop_fold (K : keymap) (tt : bool) (gpioa gpiob : Z)
    (bs : list nat) :
  forall st : list gp_call * (Z * Z),
    unit_range (snd st) ->
    fold_left
      (button_body
         (mkKeymap (center_to_noop (KEY1 K)) (center_to_noop (KEY2 K))
            (center_to_noop (KEY3 K))) tt gpioa gpiob) bs st
    = fold_left (button_body K tt gpioa gpiob) bs st
    /\ unit_range (snd (fold_left (button_body K tt gpioa gpiob) bs st)).
Proof.
  induction bs as [|b bs IH]; intros st Hst; simpl; [now split|].
  assert (E : button_body
                (mkKeymap (center_to_noop (KEY1 K)) (center_to_noop (KEY2 K))
                   (center_to_noop (KEY3 K))) tt gpioa gpiob st b
              = button_body K tt gpioa gpiob st b
              /\ unit_range (snd (button_body K tt gpioa gpiob st b))).
  { unfold button_body.
    destruct (button_pressed gpioa gpiob b); [|now split].
    unfold HANDLE_KEY. simpl KEY1. simpl KEY2. simpl KEY3.
    rewrite !center_to_noop_nth.
    rewrite (center_as_noop_step _ tt (snd st) Hst).
    pose proof (HANDLE_KEY_body_unit (nth b (KEY1 K) 0) tt _ Hst) as H1.
    destruct (HANDLE_KEY_body (nth b (KEY1 K) 0) tt (snd st)) as [c1 d1].
    simpl snd in H1. rewrite (center_as_noop_step _ tt d1 H1).
    pose proof (HANDLE_KEY_body_unit (nth b (KEY2 K) 0) tt _ H1) as H2.
    destruct (HANDLE_KEY_body (nth b (KEY2 K) 0) tt d1) as [c2 d2].
    simpl snd in H2. rewrite (center_as_noop_step _ tt d2 H2).
    pose proof (HANDLE_KEY_body_unit (nth b (KEY3 K) 0) tt _ H2) as H3.
    destruct (HANDLE_KEY_body (nth b (KEY3 K) 0) tt d2) as [c3 d3].
    now split. }
  destruct E as [E Hu]. rewrite E. now apply IH.
Qed.

(** X20.  Replacing every [K_DP_CENTER] entry by [K_NOOP] changes nothing
    in any iteration. *)
Lemma main_loop_center_to_noop (K : keymap) (g : globals) (i : tick_input) :
  main_loop
    (mkKeymap (center_to_noop (KEY1 K)) (center_to_noop (KEY2 K))
       (center_to_noop (KEY3 K))) g i
  = main_loop K g i.
Proof.
  unfold main_loop, resolve_buttons, button_loop.
  rewrite (proj1 (center_as_noop_fold K _ _ _ _ ([ReleaseAll], (0, 0))
                    ltac:(unit_range_tac))).
  reflexivity.
Qed.

(** ** Start-up *)

(** X14.  The reading loop returns as soon as two successive readings
    agree. *)
Lemma cfg4_loop_returns (pre : list Z) (r r' : Z) (rest : list Z) :
  forall prev : Z,
    to_byte r = to_byte r' ->
    exists v, cfg4_loop (pre ++ r :: r' :: rest) prev = Some v.
Proof.
  induction pre as [|p pre IH]; intros prev Hr; simpl.
  - destruct (to_byte r =? prev); [eauto|].
    rewrite <- Hr, Z.eqb_refl. eauto.
  - destruct (to_byte p =? prev); [eauto|]. now apply IH.
Qed.

(** Whenever [setup] gets through, the row it copies exists in a table
    of [N_REMAPPINGS] rows. *)
Lemma setup_row_exists (MAPPINGS : list (list Z)) (pin1 pin2 pin3 : Z)
    (reads : list Z) (CFG : Z) (K : keymap) :
  Z.of_nat (length MAPPINGS) = N_REMAPPINGS ->
  setup MAPPINGS pin1 pin2 pin3 reads = Some (CFG, K) ->
  0 <= CFG < N_REMAPPINGS
  /\ exists row, nth_error MAPPINGS (Z.to_nat CFG) = Some row
                 /\ K = load_keys row.
Proof.
  intros Hlen. unfold setup.
  destruct (cfg4_loop reads 0) as [v|]; [|discriminate].
  intros E. injection E as <- <-.
  set (c := compute_CFG _ _ _ _).
  assert (Hc : 0 <= c < N_REMAPPINGS).
  { unfold c, compute_CFG.
    destruct (pin1 =? LOW), (pin2 =? LOW), (pin3 =? LOW), (_ =? 0);
      vm_compute; split; congruence. }
  split; [exact Hc|].
  exists (nth (Z.to_nat c) MAPPINGS []). split; [|reflexivity].
  apply nth_error_nth'. lia.
Qed.

(** * Further properties *)


(** ** One iteration, from the bytes it reads *)

Lemma pressed_slots_buttons (K : keymap) (gpioa gpiob : Z) :
  pressed_slots K gpioa gpiob
  = flat_map (fun b => [nth b (KEY1 K) 0; nth b (KEY2 K) 0; nth b (KEY3 K) 0])
      (pressed_buttons gpioa gpiob).
Proof.
  unfold pressed_slots, pressed_buttons.
  induction (seq 0 N_BUTTONS) as [|b bs IH]; simpl; [reflexivity|].
  destruct (button_pressed gpioa gpiob b); simpl; now rewrite IH.
Qed.

Lemma presses_of_slots_length (tt : bool) (vs : list Z) :
  (length (presses_of_slots tt vs) <= length vs)%nat.
Proof.
  unfold presses_of_slots.
  induction vs as [|v vs IH]; simpl; [lia|].
  rewrite length_app. destruct (_ && _); simpl; lia.
Qed.

Lemma after_slots_any_turbo (tt tt' : bool) (vs : list Z) (d : Z * Z) :
  unit_range d -> after_slots tt vs d = after_slots tt' vs d.
Proof.
  intros Hd. now rewrite !after_slots_clamp_each.
Qed.

(** The calls of an iteration, from the key arrays, the phase of [TT]
    after the toggle and the two bytes read. *)
Lemma main_loop_calls_raw (K : keymap) (g : globals) (i : tick_input) :
  let a := to_byte (wire_gpioa i) in
  let b := to_byte (wire_gpiob i) in
  let tt := TT (turbo_and_debounce g i) in
  snd (main_loop K g i)
  = fst (resolve_buttons K tt a b)
      ++ socd_dispatch (snd (resolve_buttons K tt a b)) ++ [Loop].
Proof.
  intros a b tt. unfold main_loop.
  destruct (stable_is_raw g i) as [Ha Hb]. rewrite Ha, Hb.
  fold a b tt.
  destruct (resolve_buttons K tt a b) as [cs d]. simpl.
  now rewrite <- app_assoc.
Qed.



(** ** Order of the contributions and the clamped sum *)

Lemma sum_from (l : list Z) :
  forall d : Z, fold_left Z.add l d = d + fold_left Z.add l 0.
Proof.
  induction l as [|c l IH]; intros d; simpl; [lia|].
  rewrite (IH (d + c)), (IH c). lia.
Qed.

Lemma clamp1_absorb (a s : Z) :
  (0 <= s /\ -1 <= a \/ s <= 0 /\ a <= 1) ->
  clamp1 (clamp1 a + s) = clamp1 (a + s).
Proof.
  unfold clamp1. intros H.
  destruct (Z.gtb_spec a 1); destruct (Z.ltb_spec a (-1));
  repeat (match goal with
          | |- context [?x >? ?y] => destruct (Z.gtb_spec x y)
          | |- context [?x <? ?y] => destruct (Z.ltb_spec x y)
          end); lia.
Qed.

Lemma sum_nonneg (l : list Z) :
  forallb (fun c => (0 <=? c) && (c <=? 1)) l = true ->
  0 <= fold_left Z.add l 0.
Proof.
  induction l as [|c l IH]; simpl; [lia|].
  intros H. apply andb_prop in H. destruct H as [Hc Hl].
  rewrite sum_from. specialize (IH Hl). lia.
Qed.

Lemma sum_nonpos (l : list Z) :
  forallb (fun c => (-1 <=? c) && (c <=? 0)) l = true ->
  fold_left Z.add l 0 <= 0.
Proof.
  induction l as [|c l IH]; simpl; [lia|].
  intros H. apply andb_prop in H. destruct H as [Hc Hl].
  rewrite sum_from. specialize (IH Hl). lia.
Qed.

(** Contributions that all push the same way: clamping on the way is
    clamping at the end. *)
Lemma sat_sum_one_sided (l : list Z) :
  forall d : Z,
    one_sided l = true -> -1 <= d <= 1 ->
    sat_sum l d = clamp1 (d + fold_left Z.add l 0).
Proof.
  unfold sat_sum, one_sided.
  induction l as [|c l IH]; intros d H Hd; simpl.
  - rewrite Z.add_0_r. symmetry. now apply clamp1_id.
  - rewrite (sum_from l c).
    apply orb_prop in H. destruct H as [H | H];
      simpl in H; apply andb_prop in H; destruct H as [Hc Hl].
    + rewrite IH; [|now rewrite Hl | apply clamp1_range].
      pose proof (sum_nonneg l Hl).
      rewrite clamp1_absorb by lia. f_equal. lia.
    + rewrite IH; [|rewrite Hl; apply orb_true_r | apply clamp1_range].
      pose proof (sum_nonpos l Hl).
      rewrite clamp1_absorb by lia. f_equal. lia.
Qed.

Lemma order_safe_sat_sum (l : list Z) :
  order_safe l = true -> sat_sum l 0 = clamp1 (fold_left Z.add l 0).
Proof.
  induction l as [|c l IH]; simpl; [reflexivity|].
  intros H. apply andb_prop in H. destruct H as [Hc H].
  destruct (Z.eqb_spec c 0) as [-> | Hn].
  - unfold sat_sum in *. simpl. now apply IH.
  - unfold sat_sum. simpl. rewrite (clamp1_id c) by lia.
    fold (sat_sum l c). rewrite sat_sum_one_sided by (auto; lia).
    now rewrite (sum_from l c).
Qed.

Lemma sublist_refl {A : Type} (l : list A) : sublist l l.
Proof. induction l as [|a l IH]; [constructor | now apply sublist_keep]. Qed.

Lemma sublist_forallb {A : Type} (p : A -> bool) (l m : list A) :
  sublist l m -> forallb p m = true -> forallb p l = true.
Proof.
  induction 1 as [|x l m _ IH|x l m _ IH]; simpl; auto.
  - intros H. apply andb_prop in H. now apply IH.
  - intros H. apply andb_prop in H. destruct H as [-> H]. now apply IH.
Qed.

Lemma sublist_one_sided (l m : list Z) :
  sublist l m -> one_sided m = true -> one_sided l = true.
Proof.
  unfold one_sided. intros Hs H.
  apply orb_prop in H. destruct H as [H | H].
  - now rewrite (sublist_forallb _ _ _ Hs H).
  - rewrite (sublist_forallb _ _ _ Hs H). apply orb_true_r.
Qed.

Lemma one_sided_order_safe (l : list Z) :
  one_sided l = true -> order_safe l = true.
Proof.
  induction l as [|c l IH]; simpl; [reflexivity|].
  intros H.
  assert (Hl : one_sided l = true).
  { apply (sublist_one_sided l (c :: l)); [|exact H].
    apply sublist_skip, sublist_refl. }
  assert (Hc : -1 <= c <= 1).
  { unfold one_sided in H. simpl in H.
    apply orb_prop in H. destruct H as [H | H];
      apply andb_prop in H; lia. }
  replace ((-1 <=? c) && (c <=? 1)) with true by lia. simpl.
  destruct (c =? 0); auto.
Qed.

(** Leaving contributions out keeps the order safe. *)
Lemma sublist_order_safe (l m : list Z) :
  sublist l m -> order_safe m = true -> order_safe l = true.
Proof.
  induction 1 as [|x l m Hs IH|x l m Hs IH]; simpl; auto.
  - intros H. apply andb_prop in H. destruct H as [_ H].
    destruct (x =? 0); [auto|].
    apply one_sided_order_safe. now apply (sublist_one_sided l m).
  - intros H. apply andb_prop in H. destruct H as [-> H]. simpl.
    destruct (x =? 0); [auto|]. now apply (sublist_one_sided l m).
Qed.

Lemma sublist_map {A B : Type} (f : A -> B) (l m : list A) :
  sublist l m -> sublist (map f l) (map f m).
Proof.
  induction 1 as [|x l m _ IH|x l m _ IH]; simpl;
    [constructor | now apply sublist_skip | now apply sublist_keep].
Qed.

(** The slots of the pressed buttons are the slots of all buttons with
    those of the other buttons left out. *)
Lemma pressed_slots_sublist (K : keymap) (gpioa gpiob : Z) :
  sublist (pressed_slots K gpioa gpiob) (all_slots K).
Proof.
  unfold pressed_slots, all_slots.
  induction (seq 0 N_BUTTONS) as [|b bs IH]; simpl; [constructor|].
  destruct (button_pressed gpioa gpiob b).
  - simpl. now repeat apply sublist_keep.
  - simpl. now repeat apply sublist_skip.
Qed.

Lemma clamp_each_axes (l : list (Z * Z)) :
  forall d : Z * Z,
    fold_left (fun acc dl => vclamp (vadd acc dl)) l d
    = (sat_sum (map fst l) (fst d), sat_sum (map snd l) (snd d)).
Proof.
  unfold sat_sum.
  induction l as [|a l IH]; intros d; simpl; [now destruct d|].
  now rewrite IH.
Qed.

Lemma vsum_axes (l : list (Z * Z)) :
  forall d : Z * Z,
    fold_left vadd l d
    = (fold_left Z.add (map fst l) (fst d),
       fold_left Z.add (map snd l) (snd d)).
Proof.
  induction l as [|a l IH]; intros d; simpl; [now destruct d|].
  now rewrite IH.
Qed.

Lemma order_safe_keymap (K : keymap) (tt : bool) (gpioa gpiob : Z) :
  socd_order_safe K = true ->
  snd (resolve_buttons K tt gpioa gpiob) = clamp_after_sum K gpioa gpiob.
Proof.
  intros H. apply andb_prop in H. destruct H as [Hx Hy].
  rewrite resolve_buttons_slots. simpl snd.
  rewrite after_slots_clamp_each by unit_range_tac.
  unfold clamp_after_sum, vsum.
  rewrite clamp_each_axes, vsum_axes. unfold vclamp. simpl fst. simpl snd.
  rewrite !map_map.
  pose proof (pressed_slots_sublist K gpioa gpiob) as Hs.
  f_equal; apply order_safe_sat_sum.
  - apply (sublist_order_safe _ _ (sublist_map _ _ _ Hs) Hx).
  - apply (sublist_order_safe _ _ (sublist_map _ _ _ Hs) Hy).
Qed.

(** X1.  A criterion on the key arrays.  If on each axis the
    contributions of all slots, in loop order, push the same way after
    the first one, then for every input the accumulator the loop leaves is
    the clamped exact sum of the pressed buttons' contributions, and the
    direction sent is the one of that clamped sum. *)
Theorem order_safe_clamp_after_sum (K : keymap) (g : globals)
    (i : tick_input) (tt : bool) :
  socd_order_safe K = true ->
  let a := to_byte (wire_gpioa i) in
  let b := to_byte (wire_gpiob i) in
  snd (resolve_buttons K tt a b) = clamp_after_sum K a b
  /\ filter is_dpad_call (snd (main_loop K g i))
     = socd_dispatch (clamp_after_sum K a b).
Proof.
  intros H a b.
  split; [now apply order_safe_keymap|].
  rewrite main_loop_calls_raw. fold a b.
  rewrite <- (order_safe_keymap K (TT (turbo_and_debounce g i)) a b H).
  rewrite resolve_buttons_slots. simpl fst. simpl snd.
  set (d := after_slots _ _ _).
  simpl. rewrite !filter_app, filter_dpad_presses. simpl.
  unfold socd_dispatch. destruct (socd_select (fst d) (snd d)); reflexivity.
Qed.

Lemma order_safe_clamp_after_sum_witness :
  socd_order_safe (load_keys remap10) = true
  /\ filter is_dpad_call
       (snd (main_loop (load_keys remap10) initial_globals
               (tick_at 100 0x7f 0xe4)))
     = socd_dispatch (clamp_after_sum (load_keys remap10) 0x7f 0xe4).
Proof.
  split; [reflexivity|].
  exact (proj2 (order_safe_clamp_after_sum (load_keys remap10)
                  initial_globals (tick_at 100 0x7f 0xe4) false eq_refl)).
Defined.

Lemma shipped_rows_checked :
  forallb (fun row => valid_row row && socd_order_safe (load_keys row))
          shipped_rows = true.
Proof. vm_compute. reflexivity. Qed.

(** X2.  Every remap table among the sources has 45 entries, each of
    them no key, a direction without the turbo flag or an ordinary button,
    and for each of them the accumulator the loop leaves is the clamped
    exact sum, whatever is pressed. *)
Theorem shipped_rows_clamp_after_sum (row : list Z) (tt : bool)
    (gpioa gpiob : Z) :
  In row shipped_rows ->
  valid_row row = true
  /\ snd (resolve_buttons (load_keys row) tt gpioa gpiob)
     = clamp_after_sum (load_keys row) gpioa gpiob.
Proof.
  intros Hin.
  pose proof (proj1 (forallb_forall _ _) shipped_rows_checked row Hin) as H.
  apply andb_prop in H. destruct H as [Hv Ho].
  split; [exact Hv|]. now apply order_safe_keymap.
Qed.

Lemma shipped_rows_clamp_after_sum_witness :
  In remap07 shipped_rows
  /\ snd (resolve_buttons (load_keys remap07) false 0x7f 0xd7)
     = clamp_after_sum (load_keys remap07) 0x7f 0xd7.
Proof.
  assert (Hin : In remap07 shipped_rows).
  { unfold shipped_rows. simpl. tauto. }
  split; [exact Hin|].
  exact (proj2 (shipped_rows_clamp_after_sum remap07 false 0x7f 0xd7 Hin)).
Defined.
(** X3.  The calls of an iteration are determined by the key arrays, the
    two bytes read in this iteration and the phase of [TT] after the
    toggle: the debouncing state and the times play no part. *)
Theorem calls_from_raw_reading (K : keymap) (g g' : globals)
    (i i' : tick_input) :
  to_byte (wire_gpioa i) = to_byte (wire_gpioa i') ->
  to_byte (wire_gpiob i) = to_byte (wire_gpiob i') ->
  TT (fst (main_loop K g i)) = TT (fst (main_loop K g' i')) ->
  snd (main_loop K g i) = snd (main_loop K g' i').
Proof.
  intros Ha Hb Ht. rewrite !main_loop_globals in Ht.
  rewrite !main_loop_calls_raw. now rewrite Ha, Hb, Ht.
Qed.

Lemma calls_from_raw_reading_witness :
  snd (main_loop (load_keys remap00) initial_globals (tick_at 100 0xfe 0xff))
  = snd (main_loop (load_keys remap00)
           (fst (main_loop (load_keys remap00) initial_globals
                   (tick_at 100 0xfe 0xff)))
           (tick_at 101 0x1fe 0xff)).
Proof.
  apply (calls_from_raw_reading (load_keys remap00)); reflexivity.
Defined.

(** X4.  The direction an iteration sends depends on the key arrays and
    the two bytes read only: not on [TT], not on the times, not on
    anything earlier iterations left. *)
Theorem direction_from_raw_reading (K : keymap) (g g' : globals)
    (i i' : tick_input) :
  to_byte (wire_gpioa i) = to_byte (wire_gpioa i') ->
  to_byte (wire_gpiob i) = to_byte (wire_gpiob i') ->
  filter is_dpad_call (snd (main_loop K g i))
  = filter is_dpad_call (snd (main_loop K g' i')).
Proof.
  intros Ha Hb.
  rewrite !main_loop_calls_raw, <- Ha, <- Hb.
  set (a := to_byte (wire_gpioa i)). set (b := to_byte (wire_gpiob i)).
  rewrite !resolve_buttons_slots. simpl fst. simpl snd.
  rewrite (after_slots_any_turbo (TT (turbo_and_debounce g i))
             (TT (turbo_and_debounce g' i'))) by unit_range_tac.
  simpl. rewrite !filter_app, !filter_dpad_presses. reflexivity.
Qed.

Lemma direction_from_raw_reading_witness :
  filter is_dpad_call
    (snd (main_loop (load_keys remap03) initial_globals
            (tick_at 5 0x7f 0xff)))
  = filter is_dpad_call
      (snd (main_loop (load_keys remap03) initial_globals
              (tick_at 500 0x7f 0xff))).
Proof.
  apply (direction_from_raw_reading (load_keys remap03)); reflexivity.
Defined.

(** X7.  Whatever the key arrays hold, an iteration calls [press] only
    with the [KEYS2PAD] entry of an ordinary button (index 10 to 23) and
    [dPad] only with the entry of a direction (index 1 to 9); it never
    presses the literal 0 of the first entry. *)
Theorem calls_are_valid (K : keymap) (g : globals) (i : tick_input) :
  Forall valid_call (snd (main_loop K g i))
  /\ ~ In (Press PAD_0) (snd (main_loop K g i)).
Proof.
  destruct (main_loop_calls K g i) as [k [Hk [_ Hc]]]. rewrite Hc.
  set (ps := presses_of_slots _ _).
  assert (Hps : forall p, In p ps ->
                          exists k', IS_BUTTON k' = true /\ p = KEYS2PAD k').
  { intros p Hp. apply in_presses_of_slots in Hp.
    destruct Hp as [v [_ [Hb [_ Hp]]]]. eauto. }
  split.
  - constructor; [exact I|].
    apply Forall_app. split.
    + apply Forall_forall. intros c Hc'. apply in_map_iff in Hc'.
      destruct Hc' as [p [<- Hp]]. simpl. auto.
    + repeat constructor. simpl. eauto.
  - intros [H | H]; [discriminate|].
    apply in_app_or in H. destruct H as [H | H].
    + apply in_map_iff in H. destruct H as [p [E Hp]].
      injection E as ->. destruct (Hps _ Hp) as [k' [Hb E]].
      apply IS_BUTTON_spec in Hb. unfold KEYS2PAD in E.
      assert (Hk' : k' = 10 \/ k' = 11 \/ k' = 12 \/ k' = 13 \/ k' = 14
                    \/ k' = 15 \/ k' = 16 \/ k' = 17 \/ k' = 18 \/ k' = 19
                    \/ k' = 20 \/ k' = 21 \/ k' = 22 \/ k' = 23) by lia.
      repeat (destruct Hk' as [-> | Hk']; [discriminate E|]).
      subst k'. discriminate E.
    + simpl in H. destruct H as [H | [H | []]]; discriminate.
Qed.

(** X8.  With no button reading as pressed, an iteration releases all,
    centres the D-pad and sends, for every key map and every state. *)
Theorem nothing_pressed (K : keymap) (g : globals) (i : tick_input) :
  pressed_buttons (to_byte (wire_gpioa i)) (to_byte (wire_gpiob i)) = [] ->
  snd (main_loop K g i) = [ReleaseAll; DPad NSGAMEPAD_DPAD_CENTERED; Loop].
Proof.
  intros H. rewrite main_loop_calls_raw. simpl.
  rewrite resolve_buttons_slots, pressed_slots_buttons, H. reflexivity.
Qed.

Lemma nothing_pressed_witness :
  pressed_buttons (to_byte 0xff) (to_byte 0xbf) = []
  /\ snd (main_loop (load_keys remap03) initial_globals
            (tick_at 100 0xff 0xbf))
     = [ReleaseAll; DPad NSGAMEPAD_DPAD_CENTERED; Loop].
Proof.
  split; [reflexivity|].
  apply (nothing_pressed (load_keys remap03) initial_globals
           (tick_at 100 0xff 0xbf)).
  reflexivity.
Defined.

(** X9.  An iteration makes at least 3 calls and at most 3 plus three
    per pressed button, of which there are at most [N_BUTTONS]. *)
Theorem calls_bounded (K : keymap) (g : globals) (i : tick_input) :
  let n := length (pressed_buttons (to_byte (wire_gpioa i))
                     (to_byte (wire_gpiob i))) in
  (3 <= length (snd (main_loop K g i)) <= 3 + 3 * n)%nat
  /\ (n <= N_BUTTONS)%nat.
Proof.
  intros n. rewrite main_loop_calls_raw.
  destruct (main_loop_calls K g i) as [k [_ [Hk _]]].
  rewrite resolve_buttons_slots. simpl fst. simpl snd.
  set (vs := pressed_slots _ _ _).
  assert (Hd : exists c, socd_dispatch (after_slots
                 (TT (turbo_and_debounce g i)) vs (0, 0)) = [c]).
  { pose proof (after_slots_unit (TT (turbo_and_debounce g i)) vs (0, 0)
                  ltac:(unit_range_tac)) as [Hx Hy].
    destruct (socd_select_total _ _ Hx Hy) as [k' [Hs _]].
    unfold socd_dispatch. rewrite Hs. eauto. }
  destruct Hd as [c Hd]. rewrite Hd.
  simpl. rewrite length_app, length_map. simpl.
  pose proof (presses_of_slots_length (TT (turbo_and_debounce g i)) vs) as Hl.
  assert (Hvs : length vs = (3 * n)%nat).
  { unfold vs, n. rewrite pressed_slots_buttons.
    induction (pressed_buttons _ _) as [|b bs IH]; simpl; [reflexivity|].
    rewrite IH. lia. }
  split; [lia|].
  unfold n, pressed_buttons.
  etransitivity; [apply filter_length_le|]. now rewrite length_seq.
Qed.

(** X10.  A slot holding a key from [K_LS_UP] upwards (the stick keys),
    flagged or not, or [K_NOOP], does nothing at all. *)
Theorem other_keys_ignored (v : Z) (tt : bool) (d : Z * Z) :
  schar_range v ->
  v = K_NOOP \/ K_LS_UP <= Z.abs v ->
  HANDLE_KEY_body v tt d = ([], d).
Proof.
  unfold schar_range, K_NOOP, K_LS_UP. intros Hr Hv.
  rewrite HANDLE_KEY_body_eq.
  assert (Hk : slot_key v = 0 \/ 24 <= slot_key v \/ slot_key v = -128).
  { unfold slot_key. destruct (Z.ltb_spec v 0); [|lia].
    destruct (Z.eq_dec v (-128)) as [-> | Hn].
    - right. right. reflexivity.
    - rewrite to_schar_small by lia. lia. }
  assert (Hb : IS_BUTTON (slot_key v) = false).
  { destruct (IS_BUTTON (slot_key v)) eqn:E; [|reflexivity].
    apply IS_BUTTON_spec in E. lia. }
  assert (Hd : IS_DP (slot_key v) = false).
  { destruct (IS_DP (slot_key v)) eqn:E; [|reflexivity].
    apply IS_DP_spec in E. lia. }
  now rewrite Hb, Hd, andb_false_r.
Qed.

Lemma other_keys_ignored_witness :
  schar_range (- K_RS_CENTER)
  /\ HANDLE_KEY_body (- K_RS_CENTER) true (1, 1) = ([], (1, 1)).
Proof.
  assert (H : schar_range (- K_RS_CENTER)).
  { unfold schar_range, K_RS_CENTER. lia. }
  split; [exact H|].
  apply (other_keys_ignored (- K_RS_CENTER) true (1, 1) H).
  right. unfold K_LS_UP, K_RS_CENTER. lia.
Defined.


(** ** The turbo flag, table-wide *)

Lemma map_Press_inj (l l' : list pad_value) :
  map Press l = map Press l' -> l = l'.
Proof.
  revert l'. induction l as [|p l IH]; intros [|p' l'] H;
    try discriminate H; [reflexivity|].
  simpl in H. injection H as -> H. f_equal. now apply IH.
Qed.

Lemma keymap_nth (P : Z -> Prop) (l : list Z) (b : nat) :
  P 0 -> Forall P l -> P (nth b l 0).
Proof.
  intros H0 Hl. destruct (Nat.lt_ge_cases b (length l)) as [Hb | Hb].
  - apply (proj1 (Forall_forall _ _) Hl). now apply nth_In.
  - now rewrite nth_overflow.
Qed.

Lemma pressed_slots_Forall (P : Z -> Prop) (K : keymap) (gpioa gpiob : Z) :
  P 0 -> keymap_Forall P K -> Forall P (pressed_slots K gpioa gpiob).
Proof.
  intros H0 [H1 [H2 H3]]. unfold pressed_slots.
  induction (seq 0 N_BUTTONS) as [|b bs IH]; simpl; [constructor|].
  apply Forall_app. split; [|exact IH].
  destruct (button_pressed gpioa gpiob b); [|constructor].
  repeat constructor; now apply keymap_nth.
Qed.

Lemma pressed_slots_map (f : Z -> Z) (K : keymap) (gpioa gpiob : Z) :
  f 0 = 0 ->
  pressed_slots (map_keymap f K) gpioa gpiob
  = map f (pressed_slots K gpioa gpiob).
Proof.
  intros H0. unfold pressed_slots, map_keymap. cbn [KEY1 KEY2 KEY3].
  generalize (seq 0 N_BUTTONS) as bs.
  induction bs as [|b bs IH]; simpl; [reflexivity|].
  rewrite map_app, IH. f_equal.
  destruct (button_pressed gpioa gpiob b); [|reflexivity].
  simpl. rewrite <- !(map_nth f), H0. reflexivity.
Qed.

(** Replacing every entry [v] by [f v] and the phase [tt] by [tt'] changes
    nothing when no single expansion changes. *)
Lemma resolve_buttons_map (f : Z -> Z) (P : Z -> Prop) (K : keymap)
    (tt tt' : bool) (gpioa gpiob : Z) :
  f 0 = 0 -> P 0 ->
  (forall v d, P v -> HANDLE_KEY_body (f v) tt' d = HANDLE_KEY_body v tt d) ->
  keymap_Forall P K ->
  resolve_buttons (map_keymap f K) tt' gpioa gpiob
  = resolve_buttons K tt gpioa gpiob.
Proof.
  intros Hf H0 Hstep HK.
  rewrite !resolve_buttons_slots, pressed_slots_map by exact Hf.
  pose proof (pressed_slots_Forall P K gpioa gpiob H0 HK) as Hvs.
  generalize dependent (pressed_slots K gpioa gpiob). intros vs Hvs.
  assert (Hp : presses_of_slots tt' (map f vs) = presses_of_slots tt vs).
  { induction Hvs as [|v vs Hv _ IH]; [reflexivity|].
    rewrite map_cons.
    change (f v :: map f vs) with ([f v] ++ map f vs).
    change (v :: vs) with ([v] ++ vs).
    rewrite !presses_of_slots_app, IH. f_equal.
    apply map_Press_inj.
    rewrite <- (HANDLE_KEY_body_calls (f v) tt' (0, 0)).
    rewrite <- (HANDLE_KEY_body_calls v tt (0, 0)).
    rewrite (Hstep v (0, 0) Hv). reflexivity. }
  assert (Ha : forall d, after_slots tt' (map f vs) d = after_slots tt vs d).
  { clear Hp. unfold after_slots.
    induction Hvs as [|v vs Hv _ IH]; intros d; simpl; [reflexivity|].
    rewrite (Hstep v d Hv). apply IH. }
  now rewrite Hp, Ha.
Qed.

Lemma hot_step (v : Z) (tt : bool) (d : Z * Z) :
  schar_range v ->
  HANDLE_KEY_body (strip_turbo v) tt d = HANDLE_KEY_body v true d.
Proof.
  unfold schar_range, strip_turbo. intros Hv.
  rewrite !HANDLE_KEY_body_eq.
  assert (Ek : slot_key (Z.abs v) = Z.abs v).
  { unfold slot_key. destruct (Z.ltb_spec (Z.abs v) 0); [lia | reflexivity]. }
  assert (Et : slot_turbo (Z.abs v) = false).
  { unfold slot_turbo. lia. }
  rewrite Ek, Et, orb_true_r. simpl negb. simpl orb.
  destruct (Z.eq_dec v (-128)) as [-> | Hn].
  - reflexivity.
  - now rewrite (slot_key_abs v) by lia.
Qed.

Lemma cold_step (v : Z) (tt : bool) (d : Z * Z) :
  schar_range v ->
  HANDLE_KEY_body (drop_turbo v) tt d = HANDLE_KEY_body v false d.
Proof.
  unfold schar_range, drop_turbo. intros Hv.
  destruct (Z.ltb_spec v 0) as [Hneg | Hpos]; simpl andb.
  - destruct (IS_BUTTON (- v)) eqn:Hb.
    + apply IS_BUTTON_spec in Hb.
      rewrite (HANDLE_KEY_body_eq v).
      assert (Ek : slot_key v = - v).
      { rewrite slot_key_abs by lia. lia. }
      assert (Et : slot_turbo v = true) by (unfold slot_turbo; lia).
      rewrite Ek, Et. simpl.
      destruct (IS_DP (- v)) eqn:Hd; [|now destruct tt].
      apply IS_DP_spec in Hd. lia.
    + rewrite !HANDLE_KEY_body_eq.
      assert (Et : slot_turbo v = true) by (unfold slot_turbo; lia).
      assert (Eb : IS_BUTTON (slot_key v) = false).
      { destruct (Z.eq_dec v (-128)) as [-> | Hn]; [reflexivity|].
        rewrite slot_key_abs by lia.
        replace (Z.abs v) with (- v) by lia. exact Hb. }
      now rewrite Et, Eb, !andb_false_r.
  - rewrite !HANDLE_KEY_body_eq.
    assert (Et : slot_turbo v = false) by (unfold slot_turbo; lia).
    now rewrite Et.
Qed.

(** X5.  While [TT] is set, the button loop does what it would do with
    every turbo flag taken off the key arrays, in either phase. *)
Theorem hot_phase_strips_flags (K : keymap) (tt : bool) (gpioa gpiob : Z) :
  keymap_Forall schar_range K ->
  resolve_buttons K true gpioa gpiob
  = resolve_buttons (map_keymap strip_turbo K) tt gpioa gpiob.
Proof.
  intros HK. symmetry.
  apply (resolve_buttons_map strip_turbo schar_range); auto.
  - unfold schar_range; lia.
  - intros v d Hv. now apply hot_step.
Qed.

(** X6.  While [TT] is clear, the button loop does what it would do with
    every turbo-flagged button replaced by [K_NOOP], in either phase. *)
Theorem cold_phase_drops_flagged (K : keymap) (tt : bool) (gpioa gpiob : Z) :
  keymap_Forall schar_range K ->
  resolve_buttons K false gpioa gpiob
  = resolve_buttons (map_keymap drop_turbo K) tt gpioa gpiob.
Proof.
  intros HK. symmetry.
  apply (resolve_buttons_map drop_turbo schar_range); auto.
  - unfold schar_range; lia.
  - intros v d Hv. now apply cold_step.
Qed.

Lemma remap03_schar : keymap_Forall schar_range (load_keys remap03).
Proof.
  unfold keymap_Forall, schar_range.
  repeat split; repeat constructor; vm_compute; discriminate.
Qed.

Lemma hot_phase_strips_flags_witness :
  keymap_Forall schar_range (load_keys remap03)
  /\ resolve_buttons (load_keys remap03) true 0xe7 0xff
     = resolve_buttons (map_keymap strip_turbo (load_keys remap03)) false
         0xe7 0xff.
Proof.
  split; [exact remap03_schar|].
  apply (hot_phase_strips_flags (load_keys remap03) false 0xe7 0xff).
  exact remap03_schar.
Defined.

Lemma cold_phase_drops_flagged_witness :
  keymap_Forall schar_range (load_keys remap03)
  /\ resolve_buttons (load_keys remap03) false 0xe7 0xff
     = resolve_buttons (map_keymap drop_turbo (load_keys remap03)) true
         0xe7 0xff.
Proof.
  split; [exact remap03_schar|].
  apply (cold_phase_drops_flagged (load_keys remap03) true 0xe7 0xff).
  exact remap03_schar.
Defined.


(** ** Elapsed time across the wrap of [millis()] *)

Lemma elapsed_ulong (last e : Z) :
  0 <= e < 2 ^ 32 -> to_ulong (to_ulong (last + e) - last) = e.
Proof.
  intros He. unfold to_ulong.
  rewrite Zminus_mod_idemp_l.
  replace (last + e - last) with e by lia.
  now apply Z.mod_small.
Qed.

(** X11.  The elapsed-time tests are right across the wrap of
    [millis()]: if [e] ms (less than 2^32) have passed since [last], the
    turbo test fires exactly when [e >= 14] and the debouncing test
    exactly when [e > DEBOUNCING], whether or not the counter wrapped. *)
Theorem elapsed_time_wraps (last e : Z) :
  0 <= e < 2 ^ 32 ->
  (turbo_due (to_ulong (last + e)) last = true <-> 14 <= e)
  /\ (debounce_due (to_ulong (last + e)) last = true <-> DEBOUNCING < e).
Proof.
  intros He. split.
  - now rewrite turbo_due_spec, elapsed_ulong.
  - unfold debounce_due. rewrite elapsed_ulong by exact He.
    unfold DEBOUNCING. lia.
Qed.

Lemma elapsed_time_wraps_witness :
  0 <= 14 < 2 ^ 32
  /\ to_ulong (4294967291 + 14) = 9
  /\ (turbo_due 9 4294967291 = true <-> 14 <= 14).
Proof.
  assert (H : 0 <= 14 < 2 ^ 32) by (split; [discriminate | reflexivity]).
  split; [exact H|]. split; [reflexivity|].
  exact (proj1 (elapsed_time_wraps 4294967291 14 H)).
Defined.

(** ** Start-up *)

(** X12.  [CFG] is the binary number cfg1 cfg2 cfg3 cfg4: each
    configuration bit can be read back from it, so different switch
    settings select different rows. *)
Theorem CFG_bits (cfg1 cfg2 cfg3 cfg4 : bool) :
  let CFG := compute_CFG cfg1 cfg2 cfg3 cfg4 in
  Z.testbit CFG 3 = cfg1 /\ Z.testbit CFG 2 = cfg2
  /\ Z.testbit CFG 1 = cfg3 /\ Z.testbit CFG 0 = cfg4
  /\ CFG = 8 * Z.b2z cfg1 + 4 * Z.b2z cfg2 + 2 * Z.b2z cfg3 + Z.b2z cfg4.
Proof.
  destruct cfg1, cfg2, cfg3, cfg4; vm_compute; repeat split.
Qed.

Lemma last_cons {A : Type} (l : list A) (a d : A) :
  last (a :: l) d = last l a.
Proof.
  revert a d. induction l as [|b l IH]; intros a d; [reflexivity|].
  change (last (a :: b :: l) d) with (last (b :: l) d).
  now rewrite (IH b d), (IH b a).
Qed.

(** X13.  The reading loop only ever returns a byte it has just read and
    that equals the byte read before it, or [prev] (0x00 at start-up) if
    it is the first: a first reading of 0x00 is accepted at once. *)
Theorem cfg4_loop_accepts_repeat (reads : list Z) (prev v : Z) :
  cfg4_loop reads prev = Some v ->
  exists pre r rest,
    reads = pre ++ r :: rest
    /\ v = to_byte r
    /\ v = last (map to_byte pre) prev
    /\ 0 <= v < 256.
Proof.
  revert prev. induction reads as [|r reads IH]; intros prev H;
    [discriminate H|].
  simpl in H. destruct (Z.eqb_spec (to_byte r) prev) as [E | E].
  - injection H as <-. exists [], r, reads.
    repeat split; auto; unfold to_byte;
      apply Z.mod_pos_bound; lia.
  - destruct (IH _ H) as [pre [r' [rest [-> [Hv [Hl Hr]]]]]].
    exists (r :: pre), r', rest. repeat split; auto; try lia.
    simpl map. now rewrite last_cons.
Qed.

Lemma cfg4_loop_accepts_repeat_witness :
  cfg4_loop [0xff; 0xbf; 0xbf; 0xff] 0x00 = Some 0xbf
  /\ exists pre r rest,
       [0xff; 0xbf; 0xbf; 0xff] = pre ++ r :: rest
       /\ 0xbf = to_byte r
       /\ 0xbf = last (map to_byte pre) 0x00
       /\ 0 <= 0xbf < 256.
Proof.
  split; [reflexivity|].
  apply (cfg4_loop_accepts_repeat [0xff; 0xbf; 0xbf; 0xff] 0x00 0xbf).
  reflexivity.
Defined.

Lemma cfg4_loop_returns_witness :
  to_byte 0xbf = to_byte 0x1bf
  /\ exists v, cfg4_loop ([0xff; 0xfe] ++ 0xbf :: 0x1bf :: [0xff]) 0x00 = Some v.
Proof.
  split; [reflexivity|].
  apply (cfg4_loop_returns [0xff; 0xfe] 0xbf 0x1bf [0xff] 0x00).
  reflexivity.
Defined.

(** X15.  Loading a row of 45 entries fills three arrays of [N_BUTTONS]
    entries from which the row is read back, three slots per button. *)
Theorem load_keys_round_trip (row : list Z) :
  length row = (N_KEYS_PER_BUTTON * N_BUTTONS)%nat ->
  all_slots (load_keys row) = row
  /\ length (KEY1 (load_keys row)) = N_BUTTONS
  /\ length (KEY2 (load_keys row)) = N_BUTTONS
  /\ length (KEY3 (load_keys row)) = N_BUTTONS.
Proof.
  intros H.
  do 45 (destruct row as [|? row]; [discriminate H|]).
  destruct row; [|discriminate H].
  repeat split.
Qed.

Lemma load_keys_round_trip_witness :
  length remap07 = (N_KEYS_PER_BUTTON * N_BUTTONS)%nat
  /\ all_slots (load_keys remap07) = remap07.
Proof.
  split; [reflexivity|].
  apply (load_keys_round_trip remap07). reflexivity.
Defined.

(** Masking with a single bit tests that bit. *)
Lemma land_pow2 (x n : Z) :
  0 <= n -> (Z.land x (2 ^ n) =? 0) = negb (Z.testbit x n).
Proof.
  intros Hn.
  assert (E : Z.land x (2 ^ n) = if Z.testbit x n then 2 ^ n else 0).
  { apply Z.bits_inj'. intros m Hm.
    rewrite Z.land_spec, Z.pow2_bits_eqb by exact Hn.
    destruct (Z.eqb_spec n m) as [-> | Hne].
    - destruct (Z.testbit x m); simpl.
      + now rewrite Z.pow2_bits_eqb, Z.eqb_refl.
      + now rewrite Z.bits_0.
    - rewrite andb_false_r. destruct (Z.testbit x n).
      + rewrite Z.pow2_bits_eqb by exact Hn. symmetry. now apply Z.eqb_neq.
      + now rewrite Z.bits_0. }
  rewrite E. destruct (Z.testbit x n); simpl.
  - apply Z.eqb_neq. pose proof (Z.pow_pos_nonneg 2 n). lia.
  - reflexivity.
Qed.

Lemma to_byte_bit (x n : Z) :
  0 <= n < 8 -> Z.testbit (to_byte x) n = Z.testbit x n.
Proof.
  intros Hn. unfold to_byte. change 256 with (2 ^ 8).
  apply Z.mod_pow2_bits_low. lia.
Qed.

(** X16.  When the register of [P_CFG_4] reads the same value twice in a
    row from the start, [setup] gets through: [CFG] is made of the three
    pins (low is 1) and bit 6 of that value (clear is 1), and the key
    arrays are loaded from row [CFG]. *)
Theorem setup_settled (MAPPINGS : list (list Z)) (pin1 pin2 pin3 r : Z)
    (rest : list Z) :
  let CFG := compute_CFG (pin1 =? LOW) (pin2 =? LOW) (pin3 =? LOW)
               (negb (Z.testbit r 6)) in
  setup MAPPINGS pin1 pin2 pin3 (r :: r :: rest)
  = Some (CFG, load_keys (nth (Z.to_nat CFG) MAPPINGS [])).
Proof.
  intros CFG. unfold setup.
  assert (E : cfg4_loop (r :: r :: rest) 0 = Some (to_byte r)).
  { simpl. destruct (to_byte r =? 0); [reflexivity|].
    now rewrite Z.eqb_refl. }
  rewrite E.
  change (PIN2BITMASK P_CFG_4) with (2 ^ 6).
  rewrite land_pow2, to_byte_bit by lia.
  reflexivity.
Qed.
(** ** Pins, registers and bit masks *)

Lemma PIN2BITMASK_pow2 (PIN : Z) :
  0 <= PIN < 16 -> PIN2BITMASK PIN = 2 ^ (PIN mod 8).
Proof.
  intros Hp. unfold PIN2BITMASK, IS_GPIOA_PIN.
  destruct (Z.ltb_spec PIN 8) as [H8 | H8].
  - replace (0 <=? PIN) with true by lia. simpl.
    rewrite Z.shiftl_1_l, Z.mod_small by lia. reflexivity.
  - rewrite andb_false_r, Z.shiftl_1_l. f_equal.
    rewrite <- (Z.mod_small (PIN - 8) 8) by lia.
    replace PIN with (PIN - 8 + 1 * 8) at 2 by lia.
    now rewrite Z.mod_add.
Qed.

Lemma pin_mod_range (PIN : Z) : 0 <= PIN mod 8 < 8.
Proof. apply Z.mod_pos_bound. lia. Qed.

(** Testing a pin with its mask reads its level. *)
Lemma mask_test_level (gpioa gpiob PIN : Z) :
  0 <= PIN < 16 ->
  (Z.land (if IS_GPIOA_PIN PIN then gpioa else gpiob) (PIN2BITMASK PIN) =? 0)
  = negb (pin_level gpioa gpiob PIN).
Proof.
  intros Hp. rewrite PIN2BITMASK_pow2 by exact Hp.
  unfold pin_level. apply land_pow2. apply pin_mod_range.
Qed.

Lemma BUTTON2MCP_pins :
  Forall (fun p => 0 <= p < 16 /\ p <> P_CFG_4) BUTTON2MCP.
Proof. repeat constructor; vm_compute; discriminate. Qed.

Lemma BUTTON2MCP_NoDup : NoDup BUTTON2MCP.
Proof.
  unfold BUTTON2MCP.
  repeat (constructor; [simpl; intuition discriminate|]).
  constructor.
Qed.

Lemma BUTTON2MCP_nth (b : nat) :
  (b < N_BUTTONS)%nat ->
  0 <= nth b BUTTON2MCP 0 < 16 /\ nth b BUTTON2MCP 0 <> P_CFG_4.
Proof.
  intros Hb.
  apply (proj1 (Forall_forall _ _) BUTTON2MCP_pins).
  apply nth_In. exact Hb.
Qed.

(** X17.  A button reads as pressed exactly when its own pin is low; its
    pin is one of the 16 pins of the expander, is not the pin of the
    fourth configuration bit, and is no other button's pin. *)
Theorem button_reads_own_pin (gpioa gpiob : Z) (b b' : nat) :
  (b < N_BUTTONS)%nat -> (b' < N_BUTTONS)%nat ->
  let p := nth b BUTTON2MCP 0 in
  button_pressed gpioa gpiob b = negb (pin_level gpioa gpiob p)
  /\ 0 <= p < 16
  /\ p <> P_CFG_4
  /\ (nth b' BUTTON2MCP 0 = p -> b' = b).
Proof.
  intros Hb Hb' p.
  destruct (BUTTON2MCP_nth b Hb) as [Hr Hc]. fold p in Hr, Hc.
  split; [|split; [exact Hr | split; [exact Hc|]]].
  - unfold button_pressed. fold p. now apply mask_test_level.
  - intros E. apply (proj1 (NoDup_nth BUTTON2MCP 0) BUTTON2MCP_NoDup);
      auto.
Qed.

Lemma button_reads_own_pin_witness :
  (4 < N_BUTTONS)%nat /\ (9 < N_BUTTONS)%nat
  /\ button_pressed 0xfe 0xff 4 = negb (pin_level 0xfe 0xff 0).
Proof.
  assert (H4 : (4 < N_BUTTONS)%nat) by (unfold N_BUTTONS; lia).
  assert (H9 : (9 < N_BUTTONS)%nat) by (unfold N_BUTTONS; lia).
  split; [exact H4|]. split; [exact H9|].
  exact (proj1 (button_reads_own_pin 0xfe 0xff 4 9 H4 H9)).
Defined.

(** ** The stub of the expander *)

Import Stubs.

Lemma stub_read_gpioa (w : _Wire) : read_gpioa w = gpioa w.
Proof. reflexivity. Qed.

Lemma stub_read_gpiob (w : _Wire) : read_gpiob w = gpiob w.
Proof. reflexivity. Qed.

Lemma stub_read_register (w : _Wire) (PIN : Z) :
  read (MCP_READ w (PIN2REGISTER PIN))
  = if IS_GPIOA_PIN PIN then gpioa w else gpiob w.
Proof. unfold PIN2REGISTER. now destruct (IS_GPIOA_PIN PIN). Qed.

Lemma to_byte_pow2 (n : Z) : 0 <= n < 8 -> to_byte (2 ^ n) = 2 ^ n.
Proof.
  intros Hn. unfold to_byte. apply Z.mod_small.
  split; [apply Z.pow_nonneg; lia|].
  change 256 with (2 ^ 8). apply Z.pow_lt_mono_r; lia.
Qed.

Lemma set_bit (x n m : Z) (v : bool) :
  0 <= n < 8 -> 0 <= m < 8 ->
  Z.testbit (if v then to_byte (Z.lor x (2 ^ n))
             else to_byte (Z.land x (Z.lnot (2 ^ n)))) m
  = if m =? n then v else Z.testbit x m.
Proof.
  intros Hn Hm. destruct v; rewrite to_byte_bit by exact Hm.
  - rewrite Z.lor_spec, Z.pow2_bits_eqb by lia.
    rewrite (Z.eqb_sym n m). destruct (m =? n); [apply orb_true_r|].
    apply orb_false_r.
  - rewrite Z.land_spec, Z.lnot_spec, Z.pow2_bits_eqb by lia.
    rewrite (Z.eqb_sym n m). destruct (m =? n); [apply andb_false_r|].
    apply andb_true_r.
Qed.

Lemma mod8_eqb (p q : Z) :
  0 <= p < 16 -> 0 <= q < 16 ->
  IS_GPIOA_PIN p = IS_GPIOA_PIN q ->
  (q mod 8 =? p mod 8) = (q =? p).
Proof.
  unfold IS_GPIOA_PIN. intros Hp Hq E.
  destruct (Z.ltb_spec p 8); destruct (Z.ltb_spec q 8);
    try (exfalso; lia).
  - now rewrite !Z.mod_small by lia.
  - replace (q mod 8) with (q - 8).
    + replace (p mod 8) with (p - 8).
      * destruct (Z.eqb_spec q p); lia.
      * rewrite <- (Z.mod_small (p - 8) 8) by lia.
        replace p with (p - 8 + 1 * 8) at 2 by lia. now rewrite Z.mod_add.
    + rewrite <- (Z.mod_small (q - 8) 8) by lia.
      replace q with (q - 8 + 1 * 8) at 2 by lia. now rewrite Z.mod_add.
Qed.

(** [_setState] sets the level of its pin and of no other pin. *)
Lemma setState_level (w : _Wire) (pin q : Z) (v : bool) :
  0 <= pin < 16 -> 0 <= q < 16 ->
  pin_level (gpioa (_setState w pin v)) (gpiob (_setState w pin v)) q
  = if q =? pin then v else pin_level (gpioa w) (gpiob w) q.
Proof.
  intros Hp Hq. unfold pin_level, _setState.
  rewrite PIN2BITMASK_pow2, to_byte_pow2 by (auto using pin_mod_range).
  destruct (IS_GPIOA_PIN pin) eqn:Ep; destruct (IS_GPIOA_PIN q) eqn:Eq;
    cbn [gpioa gpiob].
  - rewrite set_bit by apply pin_mod_range.
    rewrite mod8_eqb by congruence. reflexivity.
  - destruct (Z.eqb_spec q pin) as [-> | _]; [congruence | reflexivity].
  - destruct (Z.eqb_spec q pin) as [-> | _]; [congruence | reflexivity].
  - rewrite set_bit by apply pin_mod_range.
    rewrite mod8_eqb by congruence. reflexivity.
Qed.

(** X18.  On the stub, a pin driven with [_setState] is read back by
    [MCP_READ] of its register and a test against its bit mask, as
    [setup.h] and [main_loop.h] do it: the test tells "low". *)
Theorem stub_pin_round_trip (w : _Wire) (PIN : Z) (v : bool) :
  0 <= PIN < 16 ->
  let w1 := _setState w PIN v in
  (Z.land (read (MCP_READ w1 (PIN2REGISTER PIN))) (PIN2BITMASK PIN) =? 0)
  = negb v.
Proof.
  intros Hp w1. rewrite stub_read_register.
  rewrite mask_test_level by exact Hp.
  unfold w1. rewrite setState_level by exact Hp.
  now rewrite Z.eqb_refl.
Qed.

Lemma stub_pin_round_trip_witness :
  0 <= P_CFG_4 < 16
  /\ (Z.land (read (MCP_READ (_setState (mk_Wire 0 0 0 false 0 0)
                                P_CFG_4 true)
                      (PIN2REGISTER P_CFG_4)))
        (PIN2BITMASK P_CFG_4) =? 0) = negb true.
Proof.
  assert (H : 0 <= P_CFG_4 < 16) by (unfold P_CFG_4; lia).
  split; [exact H|].
  exact (stub_pin_round_trip (mk_Wire 0 0 0 false 0 0) P_CFG_4 true H).
Defined.

(** The levels after driving a list of buttons' pins. *)
Lemma set_presses_levels (_presses : list Z) (bs : list nat) :
  forall w : _Wire,
    NoDup (map (fun b => nth b BUTTON2MCP 0) bs) ->
    Forall (fun b => 0 <= nth b BUTTON2MCP 0 < 16) bs ->
    let w1 :=
      fold_left
        (fun w b => _setState w (nth b BUTTON2MCP 0)
                      (nth b _presses HIGH =? HIGH)) bs w in
    (forall b, In b bs ->
               pin_level (gpioa w1) (gpiob w1) (nth b BUTTON2MCP 0)
               = (nth b _presses HIGH =? HIGH))
    /\ (forall q, 0 <= q < 16 ->
                  ~ In q (map (fun b => nth b BUTTON2MCP 0) bs) ->
                  pin_level (gpioa w1) (gpiob w1) q
                  = pin_level (gpioa w) (gpiob w) q).
Proof.
  induction bs as [|b bs IH]; intros w Hnd Hr; simpl.
  - split; [intros b [] | reflexivity].
  - inversion Hnd as [|x l Hnotin Hnd']; subst.
    inversion Hr as [|x l Hb Hr']; subst.
    destruct (IH (_setState w (nth b BUTTON2MCP 0)
                    (nth b _presses HIGH =? HIGH)) Hnd' Hr') as [H1 H2].
    split.
    + intros b0 [<- | Hin]; [|now apply H1].
      rewrite H2 by assumption.
      rewrite setState_level by assumption. now rewrite Z.eqb_refl.
    + intros q Hq Hnot. rewrite H2 by tauto.
      rewrite setState_level by assumption.
      destruct (Z.eqb_spec q (nth b BUTTON2MCP 0)) as [E | _];
        [|reflexivity].
      exfalso. apply Hnot. left. now symmetry.
Qed.

(** X19.  The test driver's loop over [_presses] followed by the two
    register reads of the main loop: button [b] reads as pressed exactly
    when [_presses[b]] is not [HIGH], whatever the registers held before,
    and the pin of the fourth configuration bit keeps its level. *)
Theorem harness_presses_round_trip (w : _Wire) (_presses : list Z) (b : nat) :
  (b < N_BUTTONS)%nat ->
  let w1 := set_presses w _presses in
  button_pressed (read_gpioa w1) (read_gpiob w1) b
  = negb (nth b _presses HIGH =? HIGH)
  /\ pin_level (gpioa w1) (gpiob w1) P_CFG_4
     = pin_level (gpioa w) (gpiob w) P_CFG_4.
Proof.
  intros Hb w1.
  assert (Hnd : NoDup (map (fun b => nth b BUTTON2MCP 0) (seq 0 N_BUTTONS))).
  { vm_compute. apply BUTTON2MCP_NoDup. }
  assert (Hr : Forall (fun b => 0 <= nth b BUTTON2MCP 0 < 16)
                 (seq 0 N_BUTTONS)).
  { apply Forall_forall. intros n Hn. apply in_seq in Hn.
    apply BUTTON2MCP_nth. lia. }
  destruct (set_presses_levels _presses (seq 0 N_BUTTONS) w Hnd Hr)
    as [H1 H2].
  fold (set_presses w _presses) in H1, H2. fold w1 in H1, H2.
  rewrite stub_read_gpioa, stub_read_gpiob. split.
  - destruct (BUTTON2MCP_nth b Hb) as [Hp _].
    unfold button_pressed. rewrite mask_test_level by exact Hp.
    rewrite H1; [reflexivity|]. apply in_seq. lia.
  - apply H2; [unfold P_CFG_4; lia|].
    vm_compute. intuition discriminate.
Qed.

Lemma harness_presses_round_trip_witness :
  (8 < N_BUTTONS)%nat
  /\ button_pressed
       (read_gpioa (set_presses (mk_Wire 0 0 0 false 0 0)
          [HIGH; HIGH; HIGH; HIGH; HIGH; HIGH; HIGH; HIGH; LOW]))
       (read_gpiob (set_presses (mk_Wire 0 0 0 false 0 0)
          [HIGH; HIGH; HIGH; HIGH; HIGH; HIGH; HIGH; HIGH; LOW]))
       8
     = true.
Proof.
  assert (H : (8 < N_BUTTONS)%nat) by (unfold N_BUTTONS; lia).
  split; [exact H|].
  exact (proj1 (harness_presses_round_trip (mk_Wire 0 0 0 false 0 0)
           [HIGH; HIGH; HIGH; HIGH; HIGH; HIGH; HIGH; HIGH; LOW] 8 H)).
Defined.
